(** * matsuri_monitor: the supervisor's update cycle

    A shallow embedding of [src/matsuri_monitor/_supervisor.py]
    ([Supervisor.update] and [Supervisor.prune]) and the properties of its
    reconciliation cycle.

    The attributes of the [Supervisor] object are fields of [World]; the
    calls it makes on its collaborators (Jetri, Monitor, LiveReport, gzip)
    are recorded as a list of [Event]s; what those collaborators answer in
    one cycle is an [Env].  A Python exception is a [Raise] result: the
    mutations done before it stay, as they do on [self]. *)

From stdpp Require Import gmap strings list fin_maps sorting.
From Stdlib Require Import ZArith Ascii String.

#[local] Set Warnings "-clear-no-such-hyp".

Local Open Scope Z_scope.
Local Open Scope string_scope.
Local Open Scope list_scope.

(** ** Data model *)

(** Modelled from the spec: the Grouper Snapshot returned by
    [chat.Grouper.load()] is "an immutable, versioned, value-comparable set
    of classification rules"; the rules are kept as their texts, compared
    by value. *)
Definition GrouperSnapshot := list string.

(** Modelled from the spec: the metadata of a broadcast as [update] reads
    it, [info.id] and [info.start_timestamp] (unix seconds; the model keeps
    whole seconds, which is all that [isoformat(timespec='seconds')]
    prints). *)
Record LiveInfo := mkLiveInfo {
  id : string;
  start_timestamp : Z
}.

(** Modelled from the spec: a [chat.LiveReport] object.  [oid] is the
    identity of the Python object, [info] the metadata it was built from.
    Its mutable content is behind [len], [set_groupers], [finalize] and
    [json], which are calls to the collaborator ([Event]s and [Env]). *)
Record LiveReport := mkLiveReport {
  oid : nat;
  info : LiveInfo
}.

(** Modelled from the spec: a [clients.Monitor(info, report)] object. *)
Record Monitor := mkMonitor {
  mon_info : LiveInfo;
  report : LiveReport
}.

#[global] Instance LiveInfo_eq_dec : EqDecision LiveInfo.
Proof. solve_decision. Defined.
#[global] Instance LiveReport_eq_dec : EqDecision LiveReport.
Proof. solve_decision. Defined.
#[global] Instance Monitor_eq_dec : EqDecision Monitor.
Proof. solve_decision. Defined.

(** [tornado.options.options]: [history_days], [archives_dir], [dump_chat]. *)
Record Options := mkOptions {
  history_days : Z;
  archives_dir : string;
  dump_chat : bool
}.

(** What is written by [json.dump] into a gzip file. *)
Inductive FileContent :=
| MessagesJson (r : nat)   (* [msg.json() for msg in report.messages] *)
| ReportJson (r : nat).    (* report.json() *)

#[global] Instance FileContent_eq_dec : EqDecision FileContent.
Proof. solve_decision. Defined.

(** The calls [update] makes on its collaborators, in program order.  The
    [video_id] of the loop iteration is kept with [start] and [terminate]. *)
Inductive Event :=
| EvSetGroupers (r : nat) (g : GrouperSnapshot)   (* report.set_groupers(g) *)
| EvJetriUpdate                                   (* self.jetri.update() *)
| EvGetLiveInfo (video_id : string)               (* self.jetri.get_live_info(video_id) *)
| EvStart (video_id : string) (m : Monitor)       (* monitor.start(current_ioloop) *)
| EvTerminate (video_id : string) (m : Monitor)   (* monitor.terminate() *)
| EvFinalize (r : nat)                            (* report.finalize() *)
| EvWrite (path : string) (c : FileContent).      (* gzip.open(path, 'wt') + json.dump *)

#[global] Instance Event_eq_dec : EqDecision Event.
Proof. solve_decision. Defined.

(** What the collaborators answer during one cycle. *)
Record Env := mkEnv {
  options : Options;
  grouper_load : GrouperSnapshot;              (* chat.Grouper.load() *)
  is_running : Monitor -> bool;                (* monitor.is_running *)
  currently_live : list string;                (* self.jetri.currently_live *)
  get_live_info : string -> option LiveInfo;   (* None: the call raises *)
  report_len : nat -> nat;                     (* len(report), by object *)
  gzip_open_ok : string -> bool;               (* false: gzip.open raises *)
  unix_now : Z;                                (* the clock: unix seconds now *)
  utc_offset : Z;                              (* local time zone, seconds east of UTC *)
  set_order : gset string -> list string       (* iteration order of a Python set *)
}.

(** [datetime.utcnow().timestamp()]: [utcnow()] is the naive date and time
    in UTC and [timestamp()] reads a naive value as local time, so the
    result is the unix time minus the UTC offset of the host. *)
Definition timestamp_now (env : Env) : Z := unix_now env - utc_offset env.

(** A Python set is iterated in some order of its elements. *)
Definition valid_order (env : Env) : Prop :=
  forall s : gset string, set_order env s ≡ₚ elements s.

(** The attributes of [self] ([live_monitors], [archive_reports],
    [groupers]) and the allocator of object identities. *)
Record World := mkWorld {
  live_monitors : gmap string Monitor;
  archive_reports : list LiveReport;
  groupers : GrouperSnapshot;
  next_oid : nat
}.

Definition with_live_monitors (f : gmap string Monitor -> gmap string Monitor) (w : World) : World :=
  mkWorld (f (live_monitors w)) (archive_reports w) (groupers w) (next_oid w).

Definition with_archive_reports (f : list LiveReport -> list LiveReport) (w : World) : World :=
  mkWorld (live_monitors w) (f (archive_reports w)) (groupers w) (next_oid w).

Definition with_groupers (g : GrouperSnapshot) (w : World) : World :=
  mkWorld (live_monitors w) (archive_reports w) g (next_oid w).

Definition with_next_oid (n : nat) (w : World) : World :=
  mkWorld (live_monitors w) (archive_reports w) (groupers w) n.

(** ** Exceptions, outcomes and the monad of the cycle *)

Inductive Exn :=
| KeyError (key : string)          (* dict lookup or del of an absent key *)
| FetchError (video_id : string)   (* jetri.get_live_info failed *)
| OSError (path : string)          (* gzip.open failed *)
| ValueError (ts : Z).             (* datetime.fromtimestamp: year out of range *)

Inductive result (A : Type) :=
| Ok (a : A)
| Raise (e : Exn).
Arguments Ok {A} a.
Arguments Raise {A} e.

Record Outcome (A : Type) := mkOutcome {
  world : World;
  events : list Event;
  res : result A
}.
Arguments mkOutcome {A} world events res.
Arguments world {A} o.
Arguments events {A} o.
Arguments res {A} o.

Definition Py (A : Type) : Type := World -> Outcome A.

Definition ret {A} (a : A) : Py A := fun w => mkOutcome w [] (Ok a).

Definition bind {A B} (m : Py A) (k : A -> Py B) : Py B := fun w =>
  let o := m w in
  match res o with
  | Ok a => let o' := k a (world o) in
            mkOutcome (world o') (events o ++ events o') (res o')
  | Raise e => mkOutcome (world o) (events o) (Raise e)
  end.

Definition raise {A} (e : Exn) : Py A := fun w => mkOutcome w [] (Raise e).
Definition emit (ev : Event) : Py unit := fun w => mkOutcome w [ev] (Ok tt).
Definition get : Py World := fun w => mkOutcome w [] (Ok w).
Definition modify (f : World -> World) : Py unit := fun w => mkOutcome (f w) [] (Ok tt).

#[global] Instance Py_ret : MRet Py := @ret.
#[global] Instance Py_bind : MBind Py := fun A B k m => bind m k.

(** [for x in l: body(x)] *)
Fixpoint for_each {A} (l : list A) (body : A -> Py unit) : Py unit :=
  match l with
  | [] => ret tt
  | x :: l' => body x ;; for_each l' body
  end.

Definition is_ok {A} (r : result A) : bool :=
  match r with Ok _ => true | Raise _ => false end.

(** ** Strings, paths and the ISO form of a start time *)

(** [s.replace(':', '')]: every colon of [s] is removed. *)
Fixpoint strip_colons (s : string) : string :=
  match s with
  | EmptyString => EmptyString
  | String c s' =>
      if Ascii.eqb c ":"%char then strip_colons s' else String c (strip_colons s')
  end.

(** Whether [c] occurs in [s]. *)
Fixpoint has_char (c : ascii) (s : string) : bool :=
  match s with
  | EmptyString => false
  | String c' s' => Ascii.eqb c' c || has_char c s'
  end.

(** [archives_dir / name] of pathlib as text, for a [name] that is one
    relative path component; pathlib rewrites a name that holds a slash
    (it collapses [//]), which this does not follow. *)
Definition path_join (dir name : string) : string := dir +:+ "/" +:+ name.

Definition digit (n : Z) : ascii := ascii_of_nat (48 + Z.to_nat (n mod 10)).

(** [n] in decimal on [width] digits, zero-padded (the [%04d], [%02d] of
    isoformat). *)
Fixpoint digits (width : nat) (n : Z) : string :=
  match width with
  | O => EmptyString
  | S width' => digits width' (n / 10) +:+ String (digit n) EmptyString
  end.

(** Year, month and day of the proleptic Gregorian calendar for a number
    of days since 1970-01-01. *)
Definition civil_from_days (days : Z) : Z * Z * Z :=
  let z := days + 719468 in
  let era := z / 146097 in
  let doe := z - era * 146097 in
  let yoe := (doe - doe / 1460 + doe / 36524 - doe / 146096) / 365 in
  let doy := doe - (365 * yoe + yoe / 4 - yoe / 100) in
  let mp := (5 * doy + 2) / 153 in
  let d := doy - (153 * mp + 2) / 5 + 1 in
  let m := if (mp <? 10)%Z then mp + 3 else mp - 9 in
  let y := yoe + era * 400 + (if (m <=? 2)%Z then 1 else 0) in
  (y, m, d).

(** [datetime.fromtimestamp(ts).isoformat(timespec='seconds')]: the naive
    local date and time, [YYYY-MM-DDTHH:MM:SS]; [None] when the year is
    outside 1..9999, where [fromtimestamp] raises. *)
Definition fromtimestamp_isoformat (offset ts : Z) : option string :=
  let local := ts + offset in
  let '(y, m, d) := civil_from_days (local / 86400) in
  let secs := local mod 86400 in
  if ((1 <=? y)%Z && (y <=? 9999)%Z)%bool then
    Some (digits 4 y +:+ "-" +:+ digits 2 m +:+ "-" +:+ digits 2 d +:+ "T" +:+
          digits 2 (secs / 3600) +:+ ":" +:+ digits 2 (secs mod 3600 / 60) +:+ ":" +:+
          digits 2 (secs mod 60))
  else None.

(** [f'{report_datetime}_{report.info.id}'.replace(':', '')] *)
Definition report_basename (report_datetime : string) (r : LiveReport) : string :=
  strip_colons (report_datetime +:+ "_" +:+ id (info r)).

(** [archives_dir / f'{report_basename}.json.gz'] *)
Definition report_path (o : Options) (basename : string) : string :=
  path_join (archives_dir o) (basename +:+ ".json.gz").

(** [archives_dir / f'{report_basename}_chat.json.gz'] *)
Definition messages_path (o : Options) (basename : string) : string :=
  path_join (archives_dir o) (basename +:+ "_chat.json.gz").

(** ** [Supervisor.update] and [Supervisor.prune] *)

(** [self.live_monitors[video_id]] *)
Definition dict_get (video_id : string) : Py Monitor :=
  w ← get;
  match live_monitors w !! video_id with
  | Some m => mret m
  | None => raise (KeyError video_id)
  end.

(** [del self.live_monitors[video_id]] *)
Definition dict_del (video_id : string) : Py unit :=
  w ← get;
  match live_monitors w !! video_id with
  | Some _ => modify (with_live_monitors (delete video_id))
  | None => raise (KeyError video_id)
  end.

(** [self.live_monitors[video_id] = monitor] *)
Definition dict_set (video_id : string) (monitor : Monitor) : Py unit :=
  modify (with_live_monitors (<[video_id := monitor]>)).

(** [chat.LiveReport(info)]: a new object. *)
Definition new_report (i : LiveInfo) : Py LiveReport :=
  w ← get;
  modify (with_next_oid (S (next_oid w)));;
  mret (mkLiveReport (next_oid w) i).

(** [with gzip.open(path, 'wt') as f: json.dump(content, f)] *)
Definition gzip_dump (env : Env) (path : string) (content : FileContent) : Py unit :=
  if gzip_open_ok env path then emit (EvWrite path content) else raise (OSError path).

(** Refresh groupers. *)
Definition refresh_groupers (env : Env) : Py unit :=
  let new_groupers := grouper_load env in
  w ← get;
  if bool_decide (new_groupers ≠ groupers w) then
    for_each (map_to_list (live_monitors w)).*2
      (fun monitor => emit (EvSetGroupers (oid (report monitor)) new_groupers));;
    modify (with_groupers new_groupers)
  else mret tt.

(** Clean up terminated monitors. *)
Definition to_delete (env : Env) (monitors : gmap string Monitor) : list string :=
  (filter (fun kv => is_running env kv.2 = false) (map_to_list monitors)).*1.

Definition cleanup (env : Env) : Py unit :=
  w ← get;
  for_each (to_delete env (live_monitors w)) dict_del.

Definition new_lives (currently_live currently_monitored : gset string) : gset string :=
  currently_live ∖ currently_monitored.

Definition stopped_lives (currently_live currently_monitored : gset string) : gset string :=
  currently_monitored ∖ currently_live.

(** The body of [for video_id in new_lives]. *)
Definition start_live (env : Env) (video_id : string) : Py unit :=
  emit (EvGetLiveInfo video_id);;
  match get_live_info env video_id with
  | None => raise (FetchError video_id)
  | Some i =>
      r ← new_report i;
      w ← get;
      emit (EvSetGroupers (oid r) (groupers w));;
      let monitor := mkMonitor i r in
      emit (EvStart video_id monitor);;
      dict_set video_id monitor
  end.

(** The body of [for video_id in stopped_lives]. *)
Definition stop_live (env : Env) (video_id : string) : Py unit :=
  monitor ← dict_get video_id;
  emit (EvTerminate video_id monitor);;
  let r := report monitor in
  if (0 <? report_len env (oid r))%nat then
    match fromtimestamp_isoformat (utc_offset env) (start_timestamp (info r)) with
    | None => raise (ValueError (start_timestamp (info r)))
    | Some report_datetime =>
        let basename := report_basename report_datetime r in
        (if dump_chat (options env)
         then gzip_dump env (messages_path (options env) basename) (MessagesJson (oid r))
         else mret tt);;
        emit (EvFinalize (oid r));;
        gzip_dump env (report_path (options env) basename) (ReportJson (oid r));;
        modify (with_archive_reports (fun l => l ++ [r]))
    end
  else mret tt.

(** [timestamp_now - timedelta(days=history_days).total_seconds()], for a
    [history_days] within the range of [timedelta] (999999999 days either
    way), outside of which [timedelta] raises. *)
Definition cutoff (env : Env) : Z := timestamp_now env - history_days (options env) * 86400.

Definition prune (env : Env) : Py unit :=
  modify (with_archive_reports
            (filter (fun r => (cutoff env < start_timestamp (info r))%Z))).

Definition live_set (env : Env) : gset string := list_to_set (currently_live env).

(** One cycle.  The failures embedded are those of [get_live_info], of
    [fromtimestamp] and of opening the archive files; the other calls on
    the collaborators ([chat.Grouper.load], [self.jetri.update],
    [set_groupers], [start], [terminate], [finalize], the serialisations)
    are taken to return. *)
Definition update (env : Env) : Py unit :=
  refresh_groupers env;;
  cleanup env;;
  emit EvJetriUpdate;;
  w ← get;
  let currently_live := live_set env in
  let currently_monitored := dom (live_monitors w) in
  for_each (set_order env (new_lives currently_live currently_monitored)) (start_live env);;
  for_each (set_order env (stopped_lives currently_live currently_monitored)) (stop_live env);;
  prune env.

(** ** The phases of a cycle and what they keep *)

(** The propagation calls of the grouper refresh. *)
Definition refresh_events (env : Env) (w : World) : list Event :=
  if bool_decide (grouper_load env ≠ groupers w)
  then (fun m => EvSetGroupers (oid (report m)) (grouper_load env)) <$>
         (map_to_list (live_monitors w)).*2
  else [].

(** The registry once the monitors that are not running are deleted. *)
Definition running_monitors (env : Env) (monitors : gmap string Monitor) : gmap string Monitor :=
  filter (fun kv => is_running env kv.2 = true) monitors.

(** The world after the grouper refresh and the clean-up, the key set the
    diff is taken against, and the two loops run from there. *)
Definition swept (env : Env) (w : World) : World :=
  with_live_monitors (running_monitors env) (with_groupers (grouper_load env) w).

Definition tracked (env : Env) (w : World) : gset string :=
  dom (live_monitors (swept env w)).

Definition start_phase (env : Env) (w : World) : Outcome unit :=
  for_each (set_order env (new_lives (live_set env) (tracked env w)))
           (start_live env) (swept env w).

Definition stop_phase (env : Env) (w : World) : Outcome unit :=
  for_each (set_order env (stopped_lives (live_set env) (tracked env w)))
           (stop_live env) (world (start_phase env w)).

(** The events of a stop iteration that archives, after [terminate]. *)
Definition archive_events (env : Env) (r : LiveReport) (report_datetime : string) : list Event :=
  let basename := report_basename report_datetime r in
  (if dump_chat (options env)
   then [EvWrite (messages_path (options env) basename) (MessagesJson (oid r))]
   else []) ++
  [EvFinalize (oid r);
   EvWrite (report_path (options env) basename) (ReportJson (oid r))].

(** A report that the stop loop can append: it is not empty and its archive
    file can be written. *)
Definition archivable (env : Env) (r : LiveReport) : Prop :=
  (0 < report_len env (oid r))%nat /\
  exists dt,
    fromtimestamp_isoformat (utc_offset env) (start_timestamp (info r)) = Some dt /\
    gzip_open_ok env (report_path (options env) (report_basename dt r)) = true.

(** The calls a stop iteration can make: [terminate] on the monitor
    registered under its id, and [finalize] and file writes for a report
    that is not empty. *)
Definition stop_event_ok (env : Env) (monitors : gmap string Monitor) (ids : list string)
    (e : Event) : Prop :=
  match e with
  | EvTerminate v m => v ∈ ids /\ monitors !! v = Some m
  | EvFinalize r => (0 < report_len env r)%nat
  | EvWrite _ (ReportJson r) | EvWrite _ (MessagesJson r) => (0 < report_len env r)%nat
  | _ => False
  end.

(** What the stop loop keeps, however it ends: the registry, the groupers
    and the allocator are untouched, the archive list only grows at its
    end, and only by reports that are not empty and whose file was
    written. *)
Definition stop_inv (env : Env) (w w' : World) : Prop :=
  live_monitors w' = live_monitors w /\
  groupers w' = groupers w /\
  next_oid w' = next_oid w /\
  exists added, archive_reports w' = archive_reports w ++ added /\
                Forall (archivable env) added.

(** The reports the stop loop appends when it runs to its end. *)
Definition to_archive (env : Env) (monitors : gmap string Monitor) (ids : list string)
    : list LiveReport :=
  omap (fun v => m ← monitors !! v;
                 if (0 <? report_len env (oid (report m)))%nat then Some (report m) else None)
       ids.

Definition is_set_groupers (r : nat) (e : Event) : bool :=
  match e with
  | EvSetGroupers r' _ => bool_decide (r' = r)
  | _ => false
  end.

(** How many times [set_groupers] is called on the report [r]. *)
Definition count_set_groupers (r : nat) (evs : list Event) : nat :=
  List.length (filter (fun e => is_set_groupers r e = true) evs).

(** The calls a start loop over [ids] can make between the worlds [w]
    and [w']: the reports it builds are new objects. *)
Definition start_event_ok (w w' : World) (ids : list string) (e : Event) : Prop :=
  match e with
  | EvGetLiveInfo v => v ∈ ids
  | EvSetGroupers r g => (next_oid w <= r < next_oid w')%nat /\ g = groupers w
  | EvStart v m => v ∈ ids /\ (next_oid w <= oid (report m) < next_oid w')%nat
  | _ => False
  end.

Record start_spec (env : Env) (l : list string) (w : World) (o : Outcome unit) : Prop := {
  start_next_oid : (next_oid w <= next_oid (world o))%nat;
  start_groupers : groupers (world o) = groupers w;
  start_archive : archive_reports (world o) = archive_reports w;
  start_other : forall k, k ∉ l -> live_monitors (world o) !! k = live_monitors w !! k;
  start_lookup : forall k m,
    live_monitors (world o) !! k = Some m ->
    live_monitors w !! k = Some m \/
    (k ∈ l /\ (next_oid w <= oid (report m) < next_oid (world o))%nat);
  start_events : Forall (start_event_ok w (world o) l) (events o);
  start_count : forall r,
    count_set_groupers r (events o) =
      if decide (next_oid w <= r < next_oid (world o))%nat then 1%nat else 0%nat;
  start_done : res o = Ok tt -> forall v, v ∈ l -> is_Some (live_monitors (world o) !! v)
}.

(** The events of a cycle, phase by phase; the stop loop runs only when
    the start loop ended normally. *)
Definition stop_events (env : Env) (w : World) : list Event :=
  if is_ok (res (start_phase env w)) then events (stop_phase env w) else [].

(** The reports of the registered monitors are objects allocated before. *)
Definition registry_wf (w : World) : Prop :=
  map_Forall (fun _ m => (oid (report m) < next_oid w)%nat) (live_monitors w).

(** ** A small scenario *)

Module Scenario.

Definition opts : Options := mkOptions 7 "archives" false.

Definition info_A : LiveInfo := mkLiveInfo "A" 1600000000.
Definition info_B : LiveInfo := mkLiveInfo "B" 1600000100.

Definition infos (video_id : string) : option LiveInfo :=
  if bool_decide (video_id = "A") then Some info_A
  else if bool_decide (video_id = "B") then Some info_B
  else None.

Definition env_with (live : list string) (g : GrouperSnapshot)
    (len : nat -> nat) (open_ok : string -> bool) : Env :=
  mkEnv opts g (fun _ => true) live infos len open_ok 1600003600 0 elements.

Definition env_of (live : list string) (g : GrouperSnapshot) : Env :=
  env_with live g (fun _ => 3%nat) (fun _ => true).

Definition empty_world : World := mkWorld ∅ [] [] 0.

Definition cycle1 : Outcome unit := update (env_of ["A"; "B"] []) empty_world.
Definition cycle2 : Outcome unit := update (env_of ["A"] []) (world cycle1).
Definition cycle3 : Outcome unit := update (env_of ["A"] []) (world cycle2).

(** Only "A" is live, then "B" goes live while the groupers change. *)
Definition only_A : Outcome unit := update (env_of ["A"] []) empty_world.
Definition regrouped : Outcome unit := update (env_of ["A"; "B"] ["rule"]) (world only_A).

End Scenario.

(** Hosts away from UTC, seven days of retention, and two archive
    entries: one started seven days and one hour before now, one six days
    and twenty-three hours before now. *)
Module Skew.

Definition now : Z := 1600003600.

Definition host (offset : Z) : Env :=
  mkEnv Scenario.opts [] (fun _ => true) [] Scenario.infos (fun _ => 3%nat)
        (fun _ => true) now offset elements.

Definition tokyo : Env := host 32400.
Definition los_angeles : Env := host (-28800).

Definition expired : LiveReport :=
  mkLiveReport 0 (mkLiveInfo "expired" (now - 7 * 86400 - 3600)).

Definition recent : LiveReport :=
  mkLiveReport 0 (mkLiveInfo "recent" (now - 7 * 86400 + 3600)).

End Skew.

(** ** The supervisor over its life *)

(** [Supervisor.__init__]: an empty registry, an empty archive list and
    the groupers loaded at construction. *)
Definition init (g : GrouperSnapshot) : World := mkWorld ∅ [] g 0.

(** The cycles the scheduler triggers, one after the other; a cycle that
    raises leaves the supervisor as it is at that point and the next tick
    runs the next cycle. *)
Fixpoint run_cycles (envs : list Env) (w : World) : World :=
  match envs with
  | [] => w
  | env :: envs' => run_cycles envs' (world (update env w))
  end.

(** No two registry entries share a report object. *)
Definition registry_inj (w : World) : Prop :=
  forall k1 k2 m1 m2,
    live_monitors w !! k1 = Some m1 -> live_monitors w !! k2 = Some m2 ->
    oid (report m1) = oid (report m2) -> k1 = k2.

(** Whether the stop iteration for the monitor [m] ends normally: its
    report is empty, or its start time can be formatted and its files can
    be opened. *)
Definition stop_ok (env : Env) (m : Monitor) : bool :=
  let r := report m in
  if (0 <? report_len env (oid r))%nat then
    match fromtimestamp_isoformat (utc_offset env) (start_timestamp (info r)) with
    | None => false
    | Some dt =>
        let basename := report_basename dt r in
        (if dump_chat (options env)
         then gzip_open_ok env (messages_path (options env) basename)
         else true) &&
        gzip_open_ok env (report_path (options env) basename)
    end
  else true.

(** The same collaborators with another iteration order of sets. *)
Definition with_set_order (order : gset string -> list string) (env : Env) : Env :=
  mkEnv (options env) (grouper_load env) (is_running env) (currently_live env)
        (get_live_info env) (report_len env) (gzip_open_ok env)
        (unix_now env) (utc_offset env) order.

(** Why a stop iteration raises. *)
Definition stop_failure (env : Env) (m : Monitor) (e : Exn) : Prop :=
  let r := report m in
  (0 < report_len env (oid r))%nat /\
  match fromtimestamp_isoformat (utc_offset env) (start_timestamp (info r)) with
  | None => e = ValueError (start_timestamp (info r))
  | Some dt =>
      let basename := report_basename dt r in
      (dump_chat (options env) = true /\
       gzip_open_ok env (messages_path (options env) basename) = false /\
       e = OSError (messages_path (options env) basename)) \/
      (gzip_open_ok env (report_path (options env) basename) = false /\
       e = OSError (report_path (options env) basename))
  end.


(** After the first cycle of the scenario, the monitor of "A" has died
    while "A" is still live. *)
Module Restart.

Definition env : Env :=
  mkEnv Scenario.opts [] (fun m => negb (bool_decide (oid (report m) = 0%nat)))
        ["A"; "B"] Scenario.infos (fun _ => 3%nat) (fun _ => true) 1600003600 0 elements.

Definition cycle : Outcome unit := update env (world Scenario.cycle1).

End Restart.

(** The report object [o] belongs to no registered monitor and was
    allocated before. *)
Definition unregistered (o : nat) (w : World) : Prop :=
  (forall k m, live_monitors w !! k = Some m -> oid (report m) ≠ o) /\
  (o < next_oid w)%nat.

(** The ids of the metadata fetches, of the starts and of the terminate
    calls of a list of events, in order. *)
Definition fetched_ids (evs : list Event) : list string :=
  omap (fun e => match e with EvGetLiveInfo v => Some v | _ => None end) evs.

Definition started_ids (evs : list Event) : list string :=
  omap (fun e => match e with EvStart v _ => Some v | _ => None end) evs.

Definition terminated_ids (evs : list Event) : list string :=
  omap (fun e => match e with EvTerminate v _ => Some v | _ => None end) evs.

(** ** Running the monad *)

Ltac py_unfold :=
  unfold mbind, mret, Py_bind, Py_ret, bind, ret, emit, get, modify, raise.

Section Running.
Context {A B : Type}.
Implicit Types (m : Py A) (k : A -> Py B).

Lemma bind_run_ok m k w a :
  res (m w) = Ok a ->
  (m ≫= k) w =
    mkOutcome (world (k a (world (m w))))
              (events (m w) ++ events (k a (world (m w))))
              (res (k a (world (m w)))).
Proof. intros H. py_unfold. simpl. by rewrite H. Qed.

Lemma bind_run_raise m k w e :
  res (m w) = Raise e ->
  (m ≫= k) w = mkOutcome (world (m w)) (events (m w)) (Raise e).
Proof. intros H. py_unfold. simpl. by rewrite H. Qed.

Lemma bind_ok_inv m k w b :
  res ((m ≫= k) w) = Ok b ->
  exists a, res (m w) = Ok a /\ res (k a (world (m w))) = Ok b.
Proof.
  py_unfold. simpl. destruct (res (m w)) as [a|e] eqn:E; simpl; [eauto | discriminate].
Qed.
End Running.

Lemma outcome_eta {A} (o : Outcome A) : o = mkOutcome (world o) (events o) (res o).
Proof. by destruct o. Qed.

Lemma res_unit_ok (r : result unit) : is_ok r = true -> r = Ok tt.
Proof. by destruct r as [[]|]. Qed.

(** ** Loops *)

Section Loops.
Context {A : Type}.
Implicit Types (l : list A) (body : A -> Py unit).

Lemma for_each_cons x l body w :
  for_each (x :: l) body w = (body x ≫= fun _ => for_each l body) w.
Proof. reflexivity. Qed.

Lemma for_each_app l1 l2 body w :
  for_each (l1 ++ l2) body w = (for_each l1 body ≫= fun _ => for_each l2 body) w.
Proof.
  revert w. induction l1 as [|x l1 IH]; intros w.
  - py_unfold. simpl. by destruct (for_each l2 body w).
  - simpl. py_unfold. simpl.
    destruct (res (body x w)) as [[]|e] eqn:E; simpl; [|done].
    rewrite IH. py_unfold. simpl.
    destruct (res (for_each l1 body (world (body x w)))) as [[]|e] eqn:E1; simpl; [|done].
    by rewrite app_assoc.
Qed.

(** A property of the world and of the events that every iteration
    keeps holds after the loop, however it ends. *)
Lemma for_each_inv (I : World -> Prop) (P : Event -> Prop) l body :
  (forall x w, x ∈ l -> I w -> I (world (body x w)) /\ Forall P (events (body x w))) ->
  forall w, I w ->
    I (world (for_each l body w)) /\ Forall P (events (for_each l body w)).
Proof.
  induction l as [|x l IH]; intros Hbody w Hw.
  - simpl. by split.
  - destruct (Hbody x w) as [Hw1 He1]; [left | done |].
    rewrite for_each_cons. py_unfold. simpl.
    destruct (res (body x w)) as [[]|e]; simpl; [|done].
    destruct (IH (fun y w' Hy => Hbody y w' (list_elem_of_further _ _ _ Hy)) _ Hw1) as [Hw2 He2].
    split; [done | by apply Forall_app].
Qed.

(** An iteration that raises in every world the loop can be in makes the
    loop raise. *)
Lemma for_each_raises (I : World -> Prop) l body x :
  x ∈ l ->
  (forall y w, I w -> I (world (body y w))) ->
  (forall w, I w -> is_ok (res (body x w)) = false) ->
  forall w, I w -> is_ok (res (for_each l body w)) = false.
Proof.
  intros Hx Hinv Hraise. induction l as [|y l IH]; intros w Hw.
  - by apply elem_of_nil in Hx.
  - rewrite for_each_cons. py_unfold. simpl.
    destruct (res (body y w)) as [[]|e] eqn:E; simpl; [|done].
    apply elem_of_cons in Hx as [->|Hx].
    + specialize (Hraise w Hw). by rewrite E in Hraise.
    + apply IH; [done | by apply Hinv].
Qed.

(** A loop that ends normally ran every iteration to its end. *)
Lemma for_each_ok_split l1 x l2 body w :
  res (for_each (l1 ++ x :: l2) body w) = Ok tt ->
  let w1 := world (for_each l1 body w) in
  let w2 := world (body x w1) in
  res (for_each l1 body w) = Ok tt /\
  res (body x w1) = Ok tt /\
  res (for_each l2 body w2) = Ok tt /\
  world (for_each (l1 ++ x :: l2) body w) = world (for_each l2 body w2) /\
  events (for_each (l1 ++ x :: l2) body w) =
    events (for_each l1 body w) ++ events (body x w1) ++ events (for_each l2 body w2).
Proof.
  intros H w1 w2. rewrite for_each_app in H |- *.
  apply bind_ok_inv in H as ([] & H1 & H2).
  rewrite (bind_run_ok _ _ _ _ H1). cbn [world events res].
  fold w1 in H2 |- *. rewrite for_each_cons in H2 |- *.
  apply bind_ok_inv in H2 as ([] & H2 & H3).
  rewrite (bind_run_ok _ _ _ _ H2). cbn [world events res].
  by fold w2 in H3 |- *.
Qed.

(** A loop of calls that only emit events. *)
Lemma for_each_emit l (f : A -> Event) w :
  for_each l (fun x => emit (f x)) w = mkOutcome w (f <$> l) (Ok tt).
Proof.
  revert w. induction l as [|x l IH]; intros w; [done|].
  rewrite for_each_cons. py_unfold. simpl. by rewrite IH.
Qed.
End Loops.

(** ** The phases of a cycle *)

Lemma refresh_groupers_run env w :
  refresh_groupers env w =
    mkOutcome (with_groupers (grouper_load env) w) (refresh_events env w) (Ok tt).
Proof.
  unfold refresh_groupers, refresh_events.
  rewrite (bind_run_ok get _ w w) by done. cbn [world events res get].
  case_bool_decide as Hg.
  - erewrite bind_run_ok by (by rewrite for_each_emit).
    rewrite for_each_emit. cbn [world events res modify]. by rewrite app_nil_r.
  - destruct w; simpl in *. by subst.
Qed.

Lemma elem_of_to_delete env monitors k :
  k ∈ to_delete env monitors <->
  exists m, monitors !! k = Some m /\ is_running env m = false.
Proof.
  unfold to_delete. rewrite list_elem_of_fmap. split.
  - intros ([k' m] & -> & H). apply list_elem_of_filter in H as [H1 H2].
    apply elem_of_map_to_list in H2. eauto.
  - intros (m & H1 & H2). exists (k, m). split; [done|].
    apply list_elem_of_filter. split; [done | by apply elem_of_map_to_list].
Qed.

Lemma NoDup_to_delete env monitors : NoDup (to_delete env monitors).
Proof.
  unfold to_delete. eapply sublist_NoDup; [apply (NoDup_fst_map_to_list monitors)|].
  apply fmap_sublist, sublist_filter.
Qed.

Lemma for_each_dict_del l : forall w,
  NoDup l ->
  (forall k, k ∈ l -> is_Some (live_monitors w !! k)) ->
  for_each l dict_del w =
    mkOutcome (with_live_monitors (fun m => foldr delete m l) w) [] (Ok tt).
Proof.
  induction l as [|k l IH]; intros w Hnd Hin.
  - by destruct w.
  - apply NoDup_cons in Hnd as [Hk Hnd].
    destruct (Hin k) as [m Hm]; [left|].
    rewrite for_each_cons.
    assert (dict_del k w = mkOutcome (with_live_monitors (delete k) w) [] (Ok tt)) as Hdel.
    { unfold dict_del. rewrite (bind_run_ok get _ w w) by done.
      cbn [world events res get]. by rewrite Hm. }
    erewrite bind_run_ok by (by rewrite Hdel). rewrite Hdel. cbn [world events res].
    rewrite IH; [| done |].
    + simpl. f_equal. unfold with_live_monitors. simpl. f_equal.
      clear -Hk. induction l as [|j l IHl]; [done|]. simpl.
      rewrite IHl by set_solver. apply delete_delete.
    + intros j Hj. simpl. rewrite lookup_delete_ne by set_solver.
      apply Hin. by right.
Qed.

Lemma lookup_foldr_delete {V} (m : gmap string V) l k :
  foldr delete m l !! k = if decide (k ∈ l) then None else m !! k.
Proof.
  induction l as [|j l IH]; simpl.
  - destruct (decide (k ∈ [])) as [H|]; [by apply elem_of_nil in H | done].
  - destruct (decide (j = k)) as [->|Hne].
    + rewrite lookup_delete_eq.
      destruct (decide (k ∈ k :: l)) as [|H]; [done | exfalso; apply H; left].
    + rewrite lookup_delete_ne by done. rewrite IH.
      destruct (decide (k ∈ l)) as [Hl|Hl], (decide (k ∈ j :: l)) as [Hjl|Hjl]; try done.
      * exfalso. apply Hjl. by right.
      * by apply elem_of_cons in Hjl as [->|].
Qed.

Lemma cleanup_run env w :
  cleanup env w = mkOutcome (with_live_monitors (running_monitors env) w) [] (Ok tt).
Proof.
  unfold cleanup. rewrite (bind_run_ok get _ w w) by done. cbn [world events res get].
  rewrite for_each_dict_del.
  - simpl. f_equal. unfold with_live_monitors. f_equal.
    apply map_eq. intros k. rewrite lookup_foldr_delete.
    unfold running_monitors. rewrite map_lookup_filter.
    destruct (live_monitors w !! k) as [m|] eqn:Hm; simpl.
    + destruct (is_running env m) eqn:Hr.
      * rewrite decide_False; [by rewrite option_guard_True|].
        rewrite elem_of_to_delete. intros (m' & ? & ?). congruence.
      * rewrite decide_True; [by rewrite option_guard_False|].
        rewrite elem_of_to_delete. eauto.
    + by destruct (decide _).
  - apply NoDup_to_delete.
  - intros k Hk. apply elem_of_to_delete in Hk as (m & -> & _). eauto.
Qed.

Lemma running_monitors_lookup env monitors k m :
  running_monitors env monitors !! k = Some m <->
  monitors !! k = Some m /\ is_running env m = true.
Proof. unfold running_monitors. by rewrite map_lookup_filter_Some. Qed.

Lemma update_run env w :
  update env w =
    let pre := refresh_events env w ++ [EvJetriUpdate] in
    match res (start_phase env w) with
    | Raise e => mkOutcome (world (start_phase env w)) (pre ++ events (start_phase env w)) (Raise e)
    | Ok _ =>
        let evs := pre ++ events (start_phase env w) ++ events (stop_phase env w) in
        match res (stop_phase env w) with
        | Raise e => mkOutcome (world (stop_phase env w)) evs (Raise e)
        | Ok _ =>
            mkOutcome
              (with_archive_reports
                 (filter (fun r => (cutoff env < start_timestamp (info r))%Z))
                 (world (stop_phase env w)))
              evs (Ok tt)
        end
    end.
Proof.
  unfold update.
  erewrite bind_run_ok by (by rewrite refresh_groupers_run).
  rewrite refresh_groupers_run. cbn [world events res].
  erewrite bind_run_ok by (by rewrite cleanup_run).
  rewrite cleanup_run. cbn [world events res].
  erewrite (bind_run_ok (emit EvJetriUpdate)) by done. cbn [world events res emit].
  erewrite (bind_run_ok get) by done. cbn [world events res get].
  fold (swept env w). fold (tracked env w). fold (start_phase env w).
  destruct (res (start_phase env w)) as [[]|e] eqn:E1.
  - erewrite bind_run_ok by exact E1. fold (stop_phase env w).
    destruct (res (stop_phase env w)) as [[]|e] eqn:E2.
    + erewrite bind_run_ok by exact E2. cbn [world events res prune modify].
      rewrite app_nil_r. simpl. by rewrite <- !app_assoc.
    + erewrite bind_run_raise by exact E2. cbn [world events res].
      simpl. by rewrite <- !app_assoc.
  - erewrite bind_run_raise by exact E1. cbn [world events res].
    simpl. by rewrite <- !app_assoc.
Qed.

(** ** One iteration of the start loop and of the stop loop *)

Ltac step_unfold :=
  unfold start_live, stop_live, dict_get, dict_set, new_report, gzip_dump;
  py_unfold; simpl.

Lemma start_live_ok env v i w :
  get_live_info env v = Some i ->
  start_live env v w =
    let m := mkMonitor i (mkLiveReport (next_oid w) i) in
    mkOutcome (mkWorld (<[v := m]> (live_monitors w)) (archive_reports w)
                       (groupers w) (S (next_oid w)))
              [EvGetLiveInfo v; EvSetGroupers (next_oid w) (groupers w); EvStart v m]
              (Ok tt).
Proof. intros H. step_unfold. by rewrite H. Qed.

Lemma start_live_raise env v w :
  get_live_info env v = None ->
  start_live env v w = mkOutcome w [EvGetLiveInfo v] (Raise (FetchError v)).
Proof. intros H. step_unfold. by rewrite H. Qed.

Lemma stop_live_missing env v w :
  live_monitors w !! v = None ->
  stop_live env v w = mkOutcome w [] (Raise (KeyError v)).
Proof. intros H. step_unfold. by rewrite H. Qed.

Lemma stop_live_empty env v m w :
  live_monitors w !! v = Some m ->
  report_len env (oid (report m)) = 0%nat ->
  stop_live env v w = mkOutcome w [EvTerminate v m] (Ok tt).
Proof. intros H Hlen. step_unfold. rewrite H. simpl. by rewrite Hlen. Qed.

Lemma stop_live_archive env v m dt w :
  live_monitors w !! v = Some m ->
  (0 < report_len env (oid (report m)))%nat ->
  fromtimestamp_isoformat (utc_offset env) (start_timestamp (info (report m))) = Some dt ->
  (dump_chat (options env) = true ->
   gzip_open_ok env (messages_path (options env) (report_basename dt (report m))) = true) ->
  gzip_open_ok env (report_path (options env) (report_basename dt (report m))) = true ->
  stop_live env v w =
    mkOutcome (with_archive_reports (fun l => l ++ [report m]) w)
              (EvTerminate v m :: archive_events env (report m) dt)
              (Ok tt).
Proof.
  intros H Hlen Hdt Hchat Hrep. step_unfold. rewrite H. simpl.
  apply Nat.ltb_lt in Hlen. rewrite Hlen, Hdt. unfold archive_events.
  destruct (dump_chat (options env)); simpl.
  - rewrite Hchat by done. simpl. by rewrite Hrep.
  - by rewrite Hrep.
Qed.

(** When the archive file of the report cannot be opened, the iteration
    raises after [finalize] and before the append. *)
Lemma stop_live_write_fails env v m w :
  live_monitors w !! v = Some m ->
  (0 < report_len env (oid (report m)))%nat ->
  (forall dt,
     fromtimestamp_isoformat (utc_offset env) (start_timestamp (info (report m))) = Some dt ->
     gzip_open_ok env (report_path (options env) (report_basename dt (report m))) = false) ->
  world (stop_live env v w) = w /\ is_ok (res (stop_live env v w)) = false.
Proof.
  intros H Hlen Hrep. step_unfold. rewrite H. simpl.
  apply Nat.ltb_lt in Hlen. rewrite Hlen.
  destruct (fromtimestamp_isoformat _ _) as [dt|] eqn:Hdt; simpl; [|done].
  rewrite (Hrep dt) by done.
  destruct (dump_chat (options env)); simpl; [|done].
  by destruct (gzip_open_ok env (messages_path _ _)); simpl.
Qed.

(** What a stop iteration does to the world, however it ends. *)
Lemma stop_live_world env v w :
  let o := stop_live env v w in
  live_monitors (world o) = live_monitors w /\
  groupers (world o) = groupers w /\
  next_oid (world o) = next_oid w /\
  (archive_reports (world o) = archive_reports w \/
   exists m, live_monitors w !! v = Some m /\
             archivable env (report m) /\
             res o = Ok tt /\
             archive_reports (world o) = archive_reports w ++ [report m]).
Proof.
  step_unfold. destruct (live_monitors w !! v) as [m|] eqn:Hm; simpl; [|by auto].
  destruct (0 <? report_len env (oid (report m)))%nat eqn:Hlen; simpl; [|by auto].
  apply Nat.ltb_lt in Hlen.
  destruct (fromtimestamp_isoformat _ _) as [dt|] eqn:Hdt; simpl; [|by auto].
  destruct (dump_chat (options env)); simpl.
  - destruct (gzip_open_ok env (messages_path _ _)); simpl; [|by auto].
    destruct (gzip_open_ok env (report_path _ _)) eqn:Hopen; simpl; [|by auto].
    repeat split; try done. right. exists m. repeat split; try done. by exists dt.
  - destruct (gzip_open_ok env (report_path _ _)) eqn:Hopen; simpl; [|by auto].
    repeat split; try done. right. exists m. repeat split; try done. by exists dt.
Qed.

Lemma stop_live_events env ids v w :
  v ∈ ids ->
  Forall (stop_event_ok env (live_monitors w) ids) (events (stop_live env v w)).
Proof.
  intros Hv. step_unfold.
  destruct (live_monitors w !! v) as [m|] eqn:Hm; simpl; [|by constructor].
  destruct (0 <? report_len env (oid (report m)))%nat eqn:Hlen; simpl;
    [|by repeat constructor].
  apply Nat.ltb_lt in Hlen.
  destruct (fromtimestamp_isoformat _ _) as [dt|]; simpl; [|by repeat constructor].
  destruct (dump_chat (options env)); simpl.
  - destruct (gzip_open_ok env (messages_path _ _)); simpl; [|by repeat constructor].
    destruct (gzip_open_ok env (report_path _ _)); simpl; by repeat constructor.
  - destruct (gzip_open_ok env (report_path _ _)); simpl; by repeat constructor.
Qed.

(** ** The stop loop *)

Lemma stop_live_ok_inv env v m w :
  live_monitors w !! v = Some m ->
  (0 < report_len env (oid (report m)))%nat ->
  res (stop_live env v w) = Ok tt ->
  exists dt,
    fromtimestamp_isoformat (utc_offset env) (start_timestamp (info (report m))) = Some dt /\
    stop_live env v w =
      mkOutcome (with_archive_reports (fun l => l ++ [report m]) w)
                (EvTerminate v m :: archive_events env (report m) dt)
                (Ok tt).
Proof.
  intros Hm Hlen Hok.
  destruct (fromtimestamp_isoformat (utc_offset env) (start_timestamp (info (report m))))
    as [dt|] eqn:Hdt.
  - exists dt. split; [done|]. apply stop_live_archive; try done.
    + intros Hd. revert Hok. step_unfold. rewrite Hm. simpl.
      apply Nat.ltb_lt in Hlen. rewrite Hlen, Hdt, Hd. simpl.
      by destruct (gzip_open_ok env (messages_path _ _)).
    + revert Hok. step_unfold. rewrite Hm. simpl.
      apply Nat.ltb_lt in Hlen. rewrite Hlen, Hdt.
      destruct (dump_chat (options env)); simpl.
      * destruct (gzip_open_ok env (messages_path _ _)); simpl; [|done].
        by destruct (gzip_open_ok env (report_path _ _)).
      * by destruct (gzip_open_ok env (report_path _ _)).
  - revert Hok. step_unfold. rewrite Hm. simpl.
    apply Nat.ltb_lt in Hlen. by rewrite Hlen, Hdt.
Qed.

Lemma stop_loop_inv env l w :
  stop_inv env w (world (for_each l (stop_live env) w)) /\
  Forall (stop_event_ok env (live_monitors w) l) (events (for_each l (stop_live env) w)).
Proof.
  apply (for_each_inv (stop_inv env w) (stop_event_ok env (live_monitors w) l)).
  - intros v w' Hv (Hreg & Hg & Hn & added & Harch & Hadded).
    pose proof (stop_live_world env v w') as (Hreg' & Hg' & Hn' & Harch').
    split.
    + repeat split; try congruence.
      destruct Harch' as [Hsame | (m & Hm & Hlen & _ & Happ)].
      * exists added. by rewrite Hsame.
      * exists (added ++ [report m]). rewrite Happ, Harch, app_assoc. split; [done|].
        apply Forall_app. split; [done | by constructor].
    + rewrite <- Hreg. by apply stop_live_events.
  - repeat split; try done. exists []. by rewrite app_nil_r.
Qed.

Lemma stop_loop_ok env l : forall w,
  res (for_each l (stop_live env) w) = Ok tt ->
  archive_reports (world (for_each l (stop_live env) w)) =
    archive_reports w ++ to_archive env (live_monitors w) l.
Proof.
  induction l as [|v l IH]; intros w Hok.
  - simpl. by rewrite app_nil_r.
  - rewrite for_each_cons in Hok |- *.
    apply bind_ok_inv in Hok as ([] & H1 & H2).
    rewrite (bind_run_ok _ _ _ _ H1). cbn [world events res].
    rewrite (IH _ H2).
    pose proof (stop_live_world env v w) as (Hreg & _ & _ & _). rewrite Hreg.
    unfold to_archive at 2. simpl. fold (to_archive env (live_monitors w) l).
    destruct (live_monitors w !! v) as [m|] eqn:Hm; simpl.
    + destruct (0 <? report_len env (oid (report m)))%nat eqn:Hlen.
      * apply Nat.ltb_lt in Hlen.
        destruct (stop_live_ok_inv env v m w Hm Hlen H1) as (dt & _ & ->).
        simpl. by rewrite <- app_assoc.
      * apply Nat.ltb_ge in Hlen.
        rewrite (stop_live_empty env v m w Hm); [done | lia].
    + by rewrite (stop_live_missing env v w Hm) in H1.
Qed.

(** In a stop loop that runs to its end, every id of the list had its
    monitor signalled, and its report, when not empty, finalized and
    written. *)
Lemma stop_loop_ok_events env l w v m :
  res (for_each l (stop_live env) w) = Ok tt ->
  v ∈ l ->
  live_monitors w !! v = Some m ->
  EvTerminate v m ∈ events (for_each l (stop_live env) w) /\
  ((0 < report_len env (oid (report m)))%nat ->
   exists dt,
     fromtimestamp_isoformat (utc_offset env) (start_timestamp (info (report m))) = Some dt /\
     archive_events env (report m) dt ⊆ events (for_each l (stop_live env) w)).
Proof.
  intros Hok Hv Hm.
  apply list_elem_of_split in Hv as (l1 & l2 & ->).
  destruct (for_each_ok_split l1 v l2 _ w Hok) as (_ & Hstep & _ & _ & ->).
  set (w1 := world (for_each l1 (stop_live env) w)) in *.
  assert (live_monitors w1 !! v = Some m) as Hm1.
  { pose proof (stop_loop_inv env l1 w) as [(Hreg & _) _]. fold w1 in Hreg. by rewrite Hreg. }
  destruct (0 <? report_len env (oid (report m)))%nat eqn:Hlen.
  - apply Nat.ltb_lt in Hlen.
    destruct (stop_live_ok_inv env v m w1 Hm1 Hlen Hstep) as (dt & Hdt & ->).
    cbn [events]. split; [set_solver|].
    intros _. exists dt. split; [done | set_solver].
  - apply Nat.ltb_ge in Hlen.
    rewrite (stop_live_empty env v m w1 Hm1) by lia. cbn [events].
    split; [set_solver | lia].
Qed.

(** ** The start loop *)

Lemma count_set_groupers_app r evs1 evs2 :
  count_set_groupers r (evs1 ++ evs2) =
    (count_set_groupers r evs1 + count_set_groupers r evs2)%nat.
Proof. unfold count_set_groupers. by rewrite filter_app, length_app. Qed.

Lemma count_set_groupers_zero r evs :
  (forall g, EvSetGroupers r g ∉ evs) -> count_set_groupers r evs = 0%nat.
Proof.
  intros H. unfold count_set_groupers.
  induction evs as [|e evs IH]; [done|].
  rewrite filter_cons. destruct (decide (is_set_groupers r e = true)) as [He|He].
  - destruct e; try done. simpl in He. apply bool_decide_eq_true in He as ->.
    exfalso. apply (H g). left.
  - apply IH. intros g Hg. apply (H g). by right.
Qed.

Lemma start_event_ok_mono w0 w w' w1 ids ids' e :
  (next_oid w0 <= next_oid w)%nat -> (next_oid w' <= next_oid w1)%nat ->
  groupers w = groupers w0 -> ids ⊆ ids' ->
  start_event_ok w w' ids e -> start_event_ok w0 w1 ids' e.
Proof.
  intros H0 H1 Hg Hids. destruct e; simpl; try done.
  - intros [? ->]. split; [lia | done].
  - intros ?. by apply Hids.
  - intros [? ?]. split; [by apply Hids | lia].
Qed.

Lemma start_loop_spec env l : forall w, start_spec env l w (for_each l (start_live env) w).
Proof.
  induction l as [|v l IH]; intros w.
  - simpl. split; simpl; try done.
    + intros k m Hm. by left.
    + intros r. destruct (decide _); [lia | done].
    + intros _ v Hv. by apply elem_of_nil in Hv.
  - rewrite for_each_cons.
    destruct (get_live_info env v) as [i|] eqn:Hi.
    + erewrite bind_run_ok by (by rewrite (start_live_ok _ _ _ _ Hi)).
      rewrite (start_live_ok _ _ _ _ Hi). cbn [world events res].
      set (m := mkMonitor i (mkLiveReport (next_oid w) i)).
      set (w1 := mkWorld _ _ _ _).
      destruct (IH w1) as [Hn Hg Ha Ho Hl He Hc Hd]. simpl in Hn, Hg, Ha.
      split; cbn [world events res].
      * lia.
      * done.
      * done.
      * intros k Hk. rewrite Ho by set_solver. simpl.
        apply lookup_insert_ne. set_solver.
      * intros k m' Hm'. apply Hl in Hm' as [Hm'|[Hk Hr]].
        -- simpl in Hm'. destruct (decide (v = k)) as [->|Hne].
           ++ rewrite lookup_insert_eq in Hm'. injection Hm' as <-. right.
              split; [left | simpl; lia].
           ++ rewrite lookup_insert_ne in Hm' by done. by left.
        -- right. split; [by right | simpl in Hr; lia].
      * repeat apply Forall_cons_2; simpl.
        -- left.
        -- split; [lia | done].
        -- split; [left | lia].
        -- eapply Forall_impl; [exact He|]. intros e.
           apply start_event_ok_mono; simpl; try done; try lia. set_solver.
      * intros r. rewrite count_set_groupers_app, Hc. simpl next_oid.
        unfold count_set_groupers. simpl. rewrite filter_cons. simpl.
        rewrite filter_cons. simpl.
        destruct (decide (bool_decide (next_oid w = r) = true)) as [Hr|Hr].
        -- apply bool_decide_eq_true in Hr. subst r. simpl.
           rewrite decide_False by lia. by rewrite decide_True by lia.
        -- rewrite bool_decide_eq_true in Hr. simpl.
           destruct (decide (S (next_oid w) <= r < _)%nat);
             [by rewrite decide_True by lia | by rewrite decide_False by lia].
      * intros Hok x Hx. apply elem_of_cons in Hx as [Heq|Hx]; [subst x|by apply Hd].
        destruct (decide (v ∈ l)) as [Hxl|Hxl]; [by apply Hd|].
        rewrite Ho by done. simpl. rewrite lookup_insert_eq. eauto.
    + rewrite (bind_run_raise _ _ _ (FetchError v)) by (by rewrite (start_live_raise _ _ _ Hi)).
      rewrite (start_live_raise _ _ _ Hi). split; cbn [world events res]; try done.
      * intros k m Hm. by left.
      * repeat constructor.
      * intros r. rewrite decide_False by lia. done.
Qed.

(** ** The whole cycle *)

Lemma elem_of_set_order env s v : valid_order env -> v ∈ set_order env s <-> v ∈ s.
Proof. intros H. rewrite (H s). apply elem_of_elements. Qed.

Lemma new_lives_spec live monitored v :
  v ∈ new_lives live monitored <-> v ∈ live /\ v ∉ monitored.
Proof. unfold new_lives. set_solver. Qed.

Lemma stopped_lives_spec live monitored v :
  v ∈ stopped_lives live monitored <-> v ∈ monitored /\ v ∉ live.
Proof. unfold stopped_lives. set_solver. Qed.

Lemma swept_lookup env w k m :
  live_monitors (swept env w) !! k = Some m <->
  live_monitors w !! k = Some m /\ is_running env m = true.
Proof. apply running_monitors_lookup. Qed.

Lemma elem_of_tracked env w k :
  k ∈ tracked env w <-> exists m, live_monitors (swept env w) !! k = Some m.
Proof. unfold tracked. by rewrite elem_of_dom. Qed.

Lemma update_events env w :
  events (update env w) =
    refresh_events env w ++ [EvJetriUpdate] ++ events (start_phase env w) ++ stop_events env w.
Proof.
  rewrite update_run. unfold stop_events.
  destruct (res (start_phase env w)) as [[]|e]; simpl.
  - destruct (res (stop_phase env w)) as [[]|e]; simpl; by rewrite <- !app_assoc.
  - by rewrite app_nil_r, <- !app_assoc.
Qed.

Lemma stop_events_ok env w :
  Forall (stop_event_ok env (live_monitors (world (start_phase env w)))
            (set_order env (stopped_lives (live_set env) (tracked env w))))
         (stop_events env w).
Proof.
  unfold stop_events. destruct (is_ok _); [|constructor].
  apply stop_loop_inv.
Qed.

Lemma update_live_monitors env w :
  live_monitors (world (update env w)) = live_monitors (world (start_phase env w)).
Proof.
  rewrite update_run.
  pose proof (stop_loop_inv env (set_order env (stopped_lives (live_set env) (tracked env w)))
                (world (start_phase env w))) as [(Hreg & _) _].
  fold (stop_phase env w) in Hreg.
  destruct (res (start_phase env w)) as [[]|e]; simpl; [|done].
  by destruct (res (stop_phase env w)) as [[]|e]; simpl.
Qed.

Lemma update_ok_inv env w :
  res (update env w) = Ok tt ->
  res (start_phase env w) = Ok tt /\ res (stop_phase env w) = Ok tt /\
  world (update env w) =
    with_archive_reports (filter (fun r => (cutoff env < start_timestamp (info r))%Z))
                         (world (stop_phase env w)).
Proof.
  rewrite update_run.
  destruct (res (start_phase env w)) as [[]|e]; simpl; [|done].
  by destruct (res (stop_phase env w)) as [[]|e]; simpl.
Qed.

(** A monitor that is tracked after the clean-up keeps its registry entry
    through the cycle, however the cycle ends. *)
Lemma update_keeps_tracked env w v m :
  valid_order env ->
  live_monitors (swept env w) !! v = Some m ->
  live_monitors (world (update env w)) !! v = Some m.
Proof.
  intros Hord Hm. rewrite update_live_monitors.
  destruct (start_loop_spec env (set_order env (new_lives (live_set env) (tracked env w)))
              (swept env w)) as [_ _ _ Ho _ _ _ _].
  fold (start_phase env w) in Ho. rewrite Ho; [done|].
  rewrite elem_of_set_order by done. rewrite new_lives_spec, elem_of_tracked.
  intros [_ Hn]. apply Hn. eauto.
Qed.

(** The registry after a cycle that ended normally. *)
Lemma update_ok_dom env w :
  valid_order env ->
  res (update env w) = Ok tt ->
  dom (live_monitors (world (update env w))) = tracked env w ∪ live_set env.
Proof.
  intros Hord Hok. apply update_ok_inv in Hok as (Hstart & _ & _).
  rewrite update_live_monitors.
  destruct (start_loop_spec env (set_order env (new_lives (live_set env) (tracked env w)))
              (swept env w)) as [_ _ _ Ho Hl _ _ Hd].
  fold (start_phase env w) in Ho, Hl, Hd.
  apply set_eq. intros k. rewrite elem_of_union, elem_of_dom. split.
  - intros [m Hm]. apply Hl in Hm as [Hm | [Hk _]].
    + left. apply elem_of_tracked. eauto.
    + right. apply elem_of_set_order in Hk; [|done]. by apply new_lives_spec in Hk as [? _].
  - intros [Hk | Hk].
    + apply elem_of_tracked in Hk as [m Hm].
      destruct (decide (k ∈ set_order env (new_lives (live_set env) (tracked env w)))) as [Hin|Hin].
      * by apply Hd.
      * rewrite Ho by done. eauto.
    + destruct (decide (k ∈ tracked env w)) as [Ht|Ht].
      * apply elem_of_tracked in Ht as [m Hm].
        exists m. rewrite <- update_live_monitors. by apply update_keeps_tracked.
      * apply Hd; [done|]. apply elem_of_set_order; [done|]. by apply new_lives_spec.
Qed.

Lemma refresh_events_set_groupers env w e :
  e ∈ refresh_events env w ->
  grouper_load env ≠ groupers w /\
  exists k m, live_monitors w !! k = Some m /\
              e = EvSetGroupers (oid (report m)) (grouper_load env).
Proof.
  unfold refresh_events. case_bool_decide as Hg; [|by intros ?%elem_of_nil].
  intros He. split; [done|].
  apply list_elem_of_fmap in He as (m & -> & Hm).
  apply list_elem_of_fmap in Hm as ([k m'] & -> & Hkm).
  apply elem_of_map_to_list in Hkm. by exists k, m'.
Qed.

(** Where an event of a cycle comes from. *)
Lemma update_events_inv env w e :
  e ∈ events (update env w) ->
  e ∈ refresh_events env w \/ e = EvJetriUpdate \/
  e ∈ events (start_phase env w) \/ e ∈ stop_events env w.
Proof.
  rewrite update_events. rewrite !elem_of_app, list_elem_of_singleton. tauto.
Qed.

Lemma start_phase_spec env w :
  start_spec env (set_order env (new_lives (live_set env) (tracked env w)))
             (swept env w) (start_phase env w).
Proof. apply start_loop_spec. Qed.

Lemma update_start_event env w v m :
  valid_order env ->
  EvStart v m ∈ events (update env w) ->
  v ∈ new_lives (live_set env) (tracked env w) /\
  EvStart v m ∈ events (start_phase env w).
Proof.
  intros Hord He. apply update_events_inv in He as [He|[He|[He|He]]].
  - by apply refresh_events_set_groupers in He as (_ & ? & ? & _ & ?).
  - done.
  - split; [|done]. destruct (start_phase_spec env w) as [_ _ _ _ _ Hev _ _].
    rewrite Forall_forall in Hev. apply Hev in He as [Hv _].
    by apply elem_of_set_order in Hv.
  - pose proof (stop_events_ok env w) as Hev. rewrite Forall_forall in Hev.
    by apply Hev in He.
Qed.

Lemma update_get_live_info_event env w v :
  valid_order env ->
  EvGetLiveInfo v ∈ events (update env w) ->
  v ∈ new_lives (live_set env) (tracked env w).
Proof.
  intros Hord He. apply update_events_inv in He as [He|[He|[He|He]]].
  - by apply refresh_events_set_groupers in He as (_ & ? & ? & _ & ?).
  - done.
  - destruct (start_phase_spec env w) as [_ _ _ _ _ Hev _ _].
    rewrite Forall_forall in Hev. apply Hev in He. by apply elem_of_set_order in He.
  - pose proof (stop_events_ok env w) as Hev. rewrite Forall_forall in Hev.
    by apply Hev in He.
Qed.

Lemma update_terminate_event env w v m :
  valid_order env ->
  EvTerminate v m ∈ events (update env w) ->
  v ∈ stopped_lives (live_set env) (tracked env w) /\
  live_monitors (world (update env w)) !! v = Some m.
Proof.
  intros Hord He. apply update_events_inv in He as [He|[He|[He|He]]].
  - by apply refresh_events_set_groupers in He as (_ & ? & ? & _ & ?).
  - done.
  - destruct (start_phase_spec env w) as [_ _ _ _ _ Hev _ _].
    rewrite Forall_forall in Hev. by apply Hev in He.
  - pose proof (stop_events_ok env w) as Hev. rewrite Forall_forall in Hev.
    apply Hev in He as [Hv Hm]. rewrite update_live_monitors.
    by apply elem_of_set_order in Hv.
Qed.

(** [finalize] and the file writes of a cycle are for reports that are not
    empty. *)
Lemma update_archive_event env w e :
  e ∈ events (update env w) ->
  match e with
  | EvFinalize r | EvWrite _ (ReportJson r) | EvWrite _ (MessagesJson r) =>
      (0 < report_len env r)%nat
  | _ => True
  end.
Proof.
  intros He. apply update_events_inv in He as [He|[He|[He|He]]].
  - by apply refresh_events_set_groupers in He as (_ & ? & ? & _ & ->).
  - by subst.
  - destruct (start_phase_spec env w) as [_ _ _ _ _ Hev _ _].
    rewrite Forall_forall in Hev. apply Hev in He. by destruct e.
  - pose proof (stop_events_ok env w) as Hev. rewrite Forall_forall in Hev.
    apply Hev in He. by destruct e as [| | | | | |? []].
Qed.

(** ** The diff *)

(** C9: the sets [new_lives] and [stopped_lives] that a cycle computes
    from the live set and the registry keys left by the clean-up are
    disjoint, and no id has both a monitor started and a monitor signalled
    to terminate in one cycle. *)
Theorem new_stopped_disjoint env w (Hord : valid_order env) :
  new_lives (live_set env) (tracked env w) ∩
    stopped_lives (live_set env) (tracked env w) = ∅ /\
  forall v, ~ ((exists m, EvStart v m ∈ events (update env w)) /\
               (exists m, EvTerminate v m ∈ events (update env w))).
Proof.
  split.
  - unfold new_lives, stopped_lives. set_solver.
  - intros v [[m Hs] [m' Ht]].
    apply update_start_event in Hs as [Hs _]; [|done].
    apply update_terminate_event in Ht as [Ht _]; [|done].
    apply new_lives_spec in Hs. apply stopped_lives_spec in Ht. tauto.
Qed.

Lemma new_stopped_disjoint_witness :
  valid_order (Scenario.env_of ["A"] []) /\
  new_lives (live_set (Scenario.env_of ["A"] []))
            (tracked (Scenario.env_of ["A"] []) (world Scenario.cycle1)) ∩
    stopped_lives (live_set (Scenario.env_of ["A"] []))
                  (tracked (Scenario.env_of ["A"] []) (world Scenario.cycle1)) = ∅ /\
  forall v, ~ ((exists m, EvStart v m ∈ events Scenario.cycle2) /\
               (exists m, EvTerminate v m ∈ events Scenario.cycle2)).
Proof.
  split; [intros s; reflexivity|].
  apply (new_stopped_disjoint (Scenario.env_of ["A"] []) (world Scenario.cycle1)).
  intros s; reflexivity.
Defined.

(** ** Pruning *)

(** [prune], in full: the entries kept are those whose [start_timestamp]
    is above the unix time, minus the UTC offset of the host, minus
    [history_days] days; their order and their repetitions are kept; it
    ends normally, touches nothing else and makes no call. *)
Lemma prune_run env w :
  prune env w =
    mkOutcome
      (with_archive_reports
         (filter (fun r =>
            (unix_now env - utc_offset env - history_days (options env) * 86400
             < start_timestamp (info r))%Z))
         w)
      [] (Ok tt).
Proof. reflexivity. Qed.

Lemma prune_spec env w :
  let o := prune env w in
  res o = Ok tt /\ events o = [] /\
  live_monitors (world o) = live_monitors w /\
  groupers (world o) = groupers w /\
  next_oid (world o) = next_oid w /\
  archive_reports (world o) `sublist_of` archive_reports w /\
  (forall r, (start_timestamp (info r) <= cutoff env)%Z -> r ∉ archive_reports (world o)) /\
  (forall r, r ∈ archive_reports w -> (cutoff env < start_timestamp (info r))%Z ->
             r ∈ archive_reports (world o)).
Proof.
  simpl. repeat split.
  - apply sublist_filter.
  - intros r Hr Hin. apply list_elem_of_filter in Hin as [Hin _]. lia.
  - intros r Hin Hr. by apply list_elem_of_filter.
Qed.

(** On a host whose local time is UTC the threshold is the one of the
    retention rule, now minus [history_days] days. *)
Lemma prune_on_utc_host env w :
  utc_offset env = 0%Z ->
  archive_reports (world (prune env w)) =
    filter (fun r => (unix_now env - history_days (options env) * 86400
                      < start_timestamp (info r))%Z)
           (archive_reports w).
Proof.
  intros Hutc. rewrite prune_run. cbn [world]. unfold with_archive_reports. cbn.
  rewrite Hutc. by replace (unix_now env - 0)%Z with (unix_now env) by lia.
Qed.

(** On a host east of UTC an entry older than the retention by less than
    the UTC offset is kept. *)
Lemma prune_keeps_expired env w r :
  r ∈ archive_reports w ->
  (start_timestamp (info r) <= unix_now env - history_days (options env) * 86400)%Z ->
  (unix_now env - utc_offset env - history_days (options env) * 86400
   < start_timestamp (info r))%Z ->
  r ∈ archive_reports (world (prune env w)).
Proof.
  intros Hin _ Hskew. rewrite prune_run. cbn [world]. cbn.
  by apply list_elem_of_filter.
Qed.

(** On a host west of UTC an entry newer than the retention by less than
    the UTC offset is dropped. *)
Lemma prune_drops_recent env w r :
  (unix_now env - history_days (options env) * 86400 < start_timestamp (info r))%Z ->
  (start_timestamp (info r)
   <= unix_now env - utc_offset env - history_days (options env) * 86400)%Z ->
  r ∉ archive_reports (world (prune env w)).
Proof.
  intros _ Hskew. rewrite prune_run. cbn [world]. cbn.
  intros Hin. apply list_elem_of_filter in Hin as [Hin _]. lia.
Qed.

(** C7 fails on the code: [prune] takes the clock from
    [datetime.utcnow().timestamp()], which is the unix time minus the UTC
    offset of the host.  On a host at UTC+9, seven days of retention: an
    entry started seven days and one hour ago is kept.  On a host at
    UTC-8: an entry started six days and twenty-three hours ago is
    dropped. *)
Theorem prune_skewed_by_utc_offset :
  (let env := Skew.tokyo in
   (start_timestamp (info Skew.expired)
    <= unix_now env - history_days (options env) * 86400)%Z /\
   archive_reports (world (prune env (mkWorld ∅ [Skew.expired] [] 1))) = [Skew.expired]) /\
  (let env := Skew.los_angeles in
   (unix_now env - history_days (options env) * 86400
    < start_timestamp (info Skew.recent))%Z /\
   archive_reports (world (prune env (mkWorld ∅ [Skew.recent] [] 1))) = []).
Proof.
  split; (split; [vm_compute; done | vm_compute; reflexivity]).
Qed.

(** After a cycle that ended normally every in-memory archive entry is
    above the cut-off. *)
Lemma update_ok_archive_recent env w :
  res (update env w) = Ok tt ->
  Forall (fun r => (cutoff env < start_timestamp (info r))%Z)
         (archive_reports (world (update env w))).
Proof.
  intros Hok. apply update_ok_inv in Hok as (_ & _ & ->). simpl.
  apply Forall_forall. intros r Hr. by apply list_elem_of_filter in Hr as [? _].
Qed.

(** ** Stability of the monitors that stay live *)

(** C5: an id that is both live and tracked after the clean-up keeps its
    monitor and gets no metadata fetch, no start and no terminate in the
    cycle; so a monitor inserted by one cycle, still running and still live
    at the next, is not inserted or started again. *)
Theorem live_tracked_untouched :
  (forall env w v m,
     valid_order env ->
     v ∈ live_set env ->
     live_monitors (swept env w) !! v = Some m ->
     live_monitors (world (update env w)) !! v = Some m /\
     (EvGetLiveInfo v ∉ events (update env w)) /\
     (forall m', EvStart v m' ∉ events (update env w)) /\
     (forall m', EvTerminate v m' ∉ events (update env w))) /\
  (forall env1 env2 w0 v m,
     valid_order env1 -> valid_order env2 ->
     v ∈ new_lives (live_set env1) (tracked env1 w0) ->
     live_monitors (world (update env1 w0)) !! v = Some m ->
     is_running env2 m = true ->
     v ∈ live_set env2 ->
     let w1 := world (update env1 w0) in
     live_monitors (world (update env2 w1)) !! v = Some m /\
     (EvGetLiveInfo v ∉ events (update env2 w1)) /\
     (forall m', EvStart v m' ∉ events (update env2 w1))).
Proof.
  assert (forall env w v m,
     valid_order env -> v ∈ live_set env ->
     live_monitors (swept env w) !! v = Some m ->
     live_monitors (world (update env w)) !! v = Some m /\
     (EvGetLiveInfo v ∉ events (update env w)) /\
     (forall m', EvStart v m' ∉ events (update env w)) /\
     (forall m', EvTerminate v m' ∉ events (update env w))) as Hone.
  { intros env w v m Hord Hlive Hm.
    assert (v ∈ tracked env w) as Ht by (apply elem_of_tracked; eauto).
    split; [by apply update_keeps_tracked|]. repeat split.
    - intros He. apply update_get_live_info_event in He; [|done].
      apply new_lives_spec in He. tauto.
    - intros m' He. apply update_start_event in He as [He _]; [|done].
      apply new_lives_spec in He. tauto.
    - intros m' He. apply update_terminate_event in He as [He _]; [|done].
      apply stopped_lives_spec in He. tauto. }
  split; [exact Hone|].
  intros env1 env2 w0 v m Hord1 Hord2 _ Hm Hrun Hlive w1.
  destruct (Hone env2 w1 v m) as (H1 & H2 & H3 & _); try done.
  by apply swept_lookup.
Qed.

Lemma live_tracked_untouched_witness :
  let env2 := Scenario.env_of ["A"] [] in
  let w1 := world Scenario.cycle1 in
  live_monitors (world (update env2 w1)) !! "A" = live_monitors w1 !! "A" /\
  (EvGetLiveInfo "A" ∉ events (update env2 w1)) /\
  (forall m', EvStart "A" m' ∉ events (update env2 w1)).
Proof.
  intros env2 w1.
  destruct live_tracked_untouched as [_ Htwo].
  destruct (Htwo (Scenario.env_of ["A"; "B"] []) env2 Scenario.empty_world "A"
                 (mkMonitor Scenario.info_A (mkLiveReport 0 Scenario.info_A)))
    as (H1 & H2 & H3).
  - intros s; reflexivity.
  - intros s; reflexivity.
  - vm_compute. reflexivity.
  - vm_compute. reflexivity.
  - reflexivity.
  - vm_compute. reflexivity.
  - split; [|split; [exact H2 | exact H3]].
    etransitivity; [exact H1|]. vm_compute. reflexivity.
Defined.

(** ** Empty reports *)

Lemma update_archive_added env w :
  exists added,
    Forall (archivable env) added /\
    forall r, r ∈ archive_reports (world (update env w)) ->
              r ∈ archive_reports w ++ added.
Proof.
  pose proof (stop_loop_inv env (set_order env (stopped_lives (live_set env) (tracked env w)))
                (world (start_phase env w))) as [(_ & _ & _ & added & Harch & Hadded) _].
  fold (stop_phase env w) in Harch.
  destruct (start_phase_spec env w) as [_ _ Ha _ _ _ _ _]. simpl in Ha.
  exists added. split; [done|]. intros r. rewrite update_run.
  destruct (res (start_phase env w)) as [[]|e]; simpl.
  - destruct (res (stop_phase env w)) as [[]|e]; simpl.
    + intros Hr. apply list_elem_of_filter in Hr as [_ Hr]. by rewrite Harch, Ha in Hr.
    + intros Hr. by rewrite Harch, Ha in Hr.
  - rewrite Ha. intros Hr. apply elem_of_app. by left.
Qed.

(** C6: for a stopped broadcast whose report is empty, the iteration only
    signals terminate and ends normally, and the cycle makes no [finalize]
    call and no file write for that report and does not append it to the
    in-memory archive list. *)
Theorem empty_report_discarded env w v m
    (Hm : live_monitors (swept env w) !! v = Some m)
    (Hstopped : v ∉ live_set env)
    (Hempty : report_len env (oid (report m)) = 0%nat) :
  (forall w1, live_monitors w1 !! v = Some m ->
              stop_live env v w1 = mkOutcome w1 [EvTerminate v m] (Ok tt)) /\
  (EvFinalize (oid (report m)) ∉ events (update env w)) /\
  (forall path, EvWrite path (ReportJson (oid (report m))) ∉ events (update env w)) /\
  (forall path, EvWrite path (MessagesJson (oid (report m))) ∉ events (update env w)) /\
  (report m ∈ archive_reports (world (update env w)) -> report m ∈ archive_reports w).
Proof.
  split; [|repeat split].
  - intros w1 Hm1. by apply stop_live_empty.
  - intros He. apply update_archive_event in He. lia.
  - intros path He. apply update_archive_event in He. lia.
  - intros path He. apply update_archive_event in He. lia.
  - intros Hin. destruct (update_archive_added env w) as (added & Hadded & Hsub).
    apply Hsub in Hin. apply elem_of_app in Hin as [Hin|Hin]; [done|].
    rewrite Forall_forall in Hadded. apply Hadded in Hin as [Hlen _]. lia.
Qed.

Lemma empty_report_discarded_witness :
  let env := Scenario.env_with ["A"] [] (fun _ => 0%nat) (fun _ => true) in
  let m := mkMonitor Scenario.info_B (mkLiveReport 1 Scenario.info_B) in
  events (update env (world Scenario.cycle1)) = [EvJetriUpdate; EvTerminate "B" m] /\
  (EvFinalize 1 ∉ events (update env (world Scenario.cycle1))) /\
  archive_reports (world (update env (world Scenario.cycle1))) = [].
Proof.
  intros env m.
  destruct (empty_report_discarded env (world Scenario.cycle1) "B" m)
    as (_ & Hfin & _ & _ & _).
  - vm_compute. reflexivity.
  - vm_compute. intros H. by repeat (apply elem_of_cons in H as [H|H]; [done|]).
  - reflexivity.
  - split; [vm_compute; reflexivity|]. split; [exact Hfin|]. vm_compute. reflexivity.
Defined.

(** ** Broadcasts that stopped *)

Lemma elem_of_to_archive env monitors l v m :
  v ∈ l -> monitors !! v = Some m ->
  (0 < report_len env (oid (report m)))%nat ->
  report m ∈ to_archive env monitors l.
Proof.
  intros Hv Hm Hlen. unfold to_archive. apply list_elem_of_omap.
  exists v. split; [done|]. rewrite Hm. simpl.
  apply Nat.ltb_lt in Hlen. by rewrite Hlen.
Qed.

(** In a cycle that ends normally, a tracked monitor whose id left the
    live set is signalled to terminate; when its report is not empty the
    report is finalized, written and appended to the archive list, where it
    stays if it is above the cut-off. *)
Lemma update_ok_stopped env w v m :
  valid_order env ->
  res (update env w) = Ok tt ->
  live_monitors (swept env w) !! v = Some m ->
  v ∉ live_set env ->
  EvTerminate v m ∈ events (update env w) /\
  ((0 < report_len env (oid (report m)))%nat ->
   (exists dt,
      fromtimestamp_isoformat (utc_offset env) (start_timestamp (info (report m))) = Some dt /\
      archive_events env (report m) dt ⊆ events (update env w)) /\
   ((cutoff env < start_timestamp (info (report m)))%Z ->
    exists l1 l2,
      archive_reports (world (update env w)) =
        filter (fun r => (cutoff env < start_timestamp (info r))%Z) (archive_reports w)
        ++ l1 ++ report m :: l2)).
Proof.
  intros Hord Hok Hm Hnl.
  pose proof (update_ok_inv env w Hok) as (Hstart & Hstop & Hw).
  set (ids := set_order env (stopped_lives (live_set env) (tracked env w))) in *.
  assert (v ∈ ids) as Hv.
  { apply elem_of_set_order; [done|]. apply stopped_lives_spec.
    split; [|done]. apply elem_of_tracked. eauto. }
  assert (live_monitors (world (start_phase env w)) !! v = Some m) as Hm1.
  { rewrite <- update_live_monitors. by apply update_keeps_tracked. }
  destruct (stop_loop_ok_events env ids _ v m Hstop Hv Hm1) as [Hterm Harch].
  change (for_each ids (stop_live env) (world (start_phase env w)))
    with (stop_phase env w) in Hterm, Harch.
  assert (events (stop_phase env w) ⊆ events (update env w)) as Hsub.
  { rewrite update_events. unfold stop_events. rewrite Hstart. cbn [is_ok].
    intros e He. do 3 (apply elem_of_app; right). done. }
  split; [by apply Hsub|]. intros Hlen. split.
  - destruct (Harch Hlen) as (dt & Hdt & Hevs). exists dt. split; [done|].
    intros e He. by apply Hsub, Hevs.
  - intros Hcut. rewrite Hw. simpl.
    pose proof (stop_loop_ok env ids _ Hstop) as Ha.
    change (for_each ids (stop_live env) (world (start_phase env w)))
      with (stop_phase env w) in Ha.
    destruct (start_phase_spec env w) as [_ _ Ha0 _ _ _ _ _]. simpl in Ha0.
    rewrite Ha, Ha0, filter_app.
    assert (report m ∈ filter (fun r => (cutoff env < start_timestamp (info r))%Z)
              (to_archive env (live_monitors (world (start_phase env w))) ids)) as Hin.
    { apply list_elem_of_filter. split; [done|]. by eapply elem_of_to_archive. }
    apply list_elem_of_split in Hin as (l1 & l2 & ->). by exists l1, l2.
Qed.

(** A registered monitor that is found not running is deleted by the
    clean-up and, when its id is not live, is absent after the cycle. *)
Lemma update_sweeps_dead env w v m :
  valid_order env ->
  live_monitors w !! v = Some m ->
  is_running env m = false ->
  v ∉ live_set env ->
  live_monitors (world (update env w)) !! v = None.
Proof.
  intros Hord Hm Hrun Hnl. rewrite update_live_monitors.
  destruct (start_phase_spec env w) as [_ _ _ Ho _ _ _ _].
  rewrite Ho.
  - destruct (live_monitors (swept env w) !! v) as [m'|] eqn:Hs; [|done].
    apply swept_lookup in Hs as [Hs Hr]. congruence.
  - rewrite elem_of_set_order by done. rewrite new_lives_spec. tauto.
Qed.

(** C1, as the code has it: in a cycle that ends normally every tracked id
    that left the live set has its monitor signalled to terminate and its
    non-empty report finalized, written and appended to the archive list
    (kept there when above the cut-off); the id STAYS in the registry with
    the same monitor, so the registry keys after the cycle are the tracked
    ids together with the live ids; a later cycle that finds the monitor
    not running, the id still not live, deletes the entry. *)
Theorem stopped_archived_and_kept env w
    (Hord : valid_order env) (Hok : res (update env w) = Ok tt) :
  (forall v m,
     live_monitors (swept env w) !! v = Some m ->
     v ∉ live_set env ->
     EvTerminate v m ∈ events (update env w) /\
     ((0 < report_len env (oid (report m)))%nat ->
      (exists dt,
         fromtimestamp_isoformat (utc_offset env) (start_timestamp (info (report m))) = Some dt /\
         archive_events env (report m) dt ⊆ events (update env w)) /\
      ((cutoff env < start_timestamp (info (report m)))%Z ->
       report m ∈ archive_reports (world (update env w)))) /\
     live_monitors (world (update env w)) !! v = Some m /\
     (forall env',
        valid_order env' -> is_running env' m = false -> v ∉ live_set env' ->
        live_monitors (world (update env' (world (update env w)))) !! v = None)) /\
  dom (live_monitors (world (update env w))) = tracked env w ∪ live_set env.
Proof.
  split; [|by apply update_ok_dom].
  intros v m Hm Hnl.
  destruct (update_ok_stopped env w v m Hord Hok Hm Hnl) as [Hterm Harch].
  pose proof (update_keeps_tracked env w v m Hord Hm) as Hkept.
  repeat split; try done.
  - by apply Harch.
  - intros Hcut. destruct (Harch H) as [_ Hin].
    destruct (Hin Hcut) as (l1 & l2 & ->). rewrite !elem_of_app. right. right. left.
  - intros env' Hord' Hrun' Hnl'. by eapply update_sweeps_dead.
Qed.

Lemma stopped_archived_and_kept_witness :
  let env := Scenario.env_of ["A"] [] in
  let w := world Scenario.cycle1 in
  dom (live_monitors (world (update env w))) = tracked env w ∪ live_set env /\
  dom (live_monitors (world (update env w))) = {["A"; "B"]}.
Proof.
  intros env w.
  destruct (stopped_archived_and_kept env w) as [_ Hdom].
  - intros s; reflexivity.
  - vm_compute. reflexivity.
  - split; [exact Hdom|]. vm_compute. reflexivity.
Defined.

(** C1 as the spec states it fails: after the cycle in which "B" left the
    live set, "B" is still a key of the registry, which is not the live
    set. *)
Lemma stopped_removed_counterexample :
  let env := Scenario.env_of ["A"] [] in
  let w := world Scenario.cycle1 in
  "B" ∈ stopped_lives (live_set env) (tracked env w) /\
  res (update env w) = Ok tt /\
  is_Some (live_monitors (world (update env w)) !! "B") /\
  dom (live_monitors (world (update env w))) ≠ live_set env.
Proof.
  intros env w. split; [|split; [|split]].
  - vm_compute. reflexivity.
  - vm_compute. reflexivity.
  - vm_compute. eauto.
  - intros Heq.
    assert ("B" ∈ dom (live_monitors (world (update env w)))) as Hin.
    { apply elem_of_dom. vm_compute. eauto. }
    rewrite Heq in Hin. apply elem_of_list_to_set in Hin.
    apply elem_of_cons in Hin as [Hin|Hin]; [discriminate | by apply elem_of_nil in Hin].
Qed.






(** ** Grouper refresh *)

Lemma update_groupers env w : groupers (world (update env w)) = grouper_load env.
Proof.
  rewrite update_run.
  pose proof (stop_loop_inv env (set_order env (stopped_lives (live_set env) (tracked env w)))
                (world (start_phase env w))) as [(_ & Hg & _) _].
  fold (stop_phase env w) in Hg.
  destruct (start_phase_spec env w) as [_ Hg0 _ _ _ _ _ _]. simpl in Hg0.
  destruct (res (start_phase env w)) as [[]|e]; simpl; [|done].
  destruct (res (stop_phase env w)) as [[]|e]; simpl; congruence.
Qed.

Lemma count_set_groupers_pos r evs :
  (0 < count_set_groupers r evs)%nat -> exists g, EvSetGroupers r g ∈ evs.
Proof.
  unfold count_set_groupers. induction evs as [|e evs IH]; simpl; [lia|].
  rewrite filter_cons. destruct (decide (is_set_groupers r e = true)) as [He|He].
  - intros _. destruct e; try done. simpl in He. apply bool_decide_eq_true in He as ->.
    exists g. left.
  - intros H. destruct (IH H) as [g Hg]. exists g. by right.
Qed.

(** C4: when the loaded snapshot differs from the stored one, every
    registered monitor's report (so every running one) gets a
    [set_groupers] call with the loaded snapshot, which is then the stored
    one; a monitor started in the cycle gets exactly one [set_groupers]
    call, with that same snapshot; when the loaded snapshot equals the
    stored one, no report of a registered monitor gets a call. *)
Theorem groupers_propagated env w (Hwf : registry_wf w) :
  let o := update env w in
  groupers (world o) = grouper_load env /\
  (grouper_load env ≠ groupers w ->
   forall k m, live_monitors w !! k = Some m ->
               EvSetGroupers (oid (report m)) (grouper_load env) ∈ events o) /\
  (forall v m, EvStart v m ∈ events o ->
               EvSetGroupers (oid (report m)) (grouper_load env) ∈ events o /\
               count_set_groupers (oid (report m)) (events o) = 1%nat /\
               forall g, EvSetGroupers (oid (report m)) g ∈ events o -> g = grouper_load env) /\
  (grouper_load env = groupers w ->
   forall k m g, live_monitors w !! k = Some m ->
                 EvSetGroupers (oid (report m)) g ∉ events o).
Proof.
  intros o. unfold o.
  destruct (start_phase_spec env w) as [Hn _ _ _ _ Hev Hc _].
  rewrite Forall_forall in Hev. simpl in Hn.
  pose proof (stop_events_ok env w) as Hstop. rewrite Forall_forall in Hstop.
  assert (forall r g, EvSetGroupers r g ∈ events (update env w) ->
            (EvSetGroupers r g ∈ refresh_events env w /\ (r < next_oid w)%nat) \/
            (EvSetGroupers r g ∈ events (start_phase env w) /\ (next_oid w <= r)%nat /\
             g = grouper_load env)) as Hsg.
  { intros r g He. apply update_events_inv in He as [He|[He|[He|He]]].
    - left. split; [done|].
      apply refresh_events_set_groupers in He as (_ & k & m & Hm & [= -> _]).
      by apply Hwf in Hm.
    - done.
    - right. split; [done|]. apply Hev in He as [Hr ->]. simpl in Hr. split; [lia|done].
    - by apply Hstop in He. }
  split; [apply update_groupers|]. split; [|split].
  - intros Hg k m Hm. rewrite update_events. apply elem_of_app. left.
    unfold refresh_events. rewrite bool_decide_eq_true_2 by done.
    apply list_elem_of_fmap. exists m. split; [done|].
    apply list_elem_of_fmap. exists (k, m). split; [done|]. by apply elem_of_map_to_list.
  - intros v m He.
    assert (EvStart v m ∈ events (start_phase env w)) as Hs.
    { apply update_events_inv in He as [He|[He|[He|He]]]; try done.
      - by apply refresh_events_set_groupers in He as (_ & ? & ? & _ & ?).
      - by apply Hstop in He. }
    apply Hev in Hs as [_ Hr]. simpl in Hr.
    assert (count_set_groupers (oid (report m)) (events (update env w)) = 1%nat) as Hone.
    { assert (count_set_groupers (oid (report m)) (refresh_events env w) = 0%nat) as H0.
      { apply count_set_groupers_zero. intros g Hg.
        apply refresh_events_set_groupers in Hg as (_ & k & m' & Hm' & [= Ho _]).
        apply Hwf in Hm'. simpl in Hm'. lia. }
      assert (count_set_groupers (oid (report m)) [EvJetriUpdate] = 0%nat) as H1 by done.
      assert (count_set_groupers (oid (report m)) (stop_events env w) = 0%nat) as H2.
      { apply count_set_groupers_zero. intros g Hg. by apply Hstop in Hg. }
      rewrite update_events, !count_set_groupers_app, Hc, H0, H1, H2.
      by rewrite decide_True by (simpl; lia). }
    assert (forall g, EvSetGroupers (oid (report m)) g ∈ events (update env w) ->
                      g = grouper_load env) as Hval.
    { intros g Hg. apply Hsg in Hg as [[_ Hlt]|(_ & _ & ->)]; [lia | done]. }
    destruct (count_set_groupers_pos (oid (report m)) (events (update env w))) as [g Hg];
      [lia|].
    split; [|done]. by rewrite <- (Hval g Hg).
  - intros Heq k m g Hm He. apply Hsg in He as [[He _]|(_ & Hr & _)].
    + apply refresh_events_set_groupers in He as [Hne _]. done.
    + apply Hwf in Hm. simpl in Hm. lia.
Qed.

Lemma groupers_propagated_witness :
  let m_A := mkMonitor Scenario.info_A (mkLiveReport 0 Scenario.info_A) in
  let m_B := mkMonitor Scenario.info_B (mkLiveReport 1 Scenario.info_B) in
  events Scenario.regrouped =
    [EvSetGroupers 0 ["rule"]; EvJetriUpdate;
     EvGetLiveInfo "B"; EvSetGroupers 1 ["rule"]; EvStart "B" m_B] /\
  groupers (world Scenario.regrouped) = ["rule"] /\
  count_set_groupers 1 (events Scenario.regrouped) = 1%nat.
Proof.
  intros m_A m_B.
  destruct (groupers_propagated (Scenario.env_of ["A"; "B"] ["rule"]) (world Scenario.only_A))
    as (Hg & _ & Hstart & _).
  - apply map_Forall_to_list. vm_compute. repeat constructor.
  - split; [vm_compute; reflexivity|]. split; [exact Hg|].
    apply (Hstart "B" m_B). vm_compute. do 4 right. left.
Defined.

(** [registry_wf] holds at the start and is kept by every cycle. *)
Lemma registry_wf_update env w : registry_wf w -> registry_wf (world (update env w)).
Proof.
  intros Hwf k m. rewrite update_live_monitors. intros Hm.
  assert (next_oid (world (update env w)) = next_oid (world (start_phase env w))) as ->.
  { rewrite update_run.
    pose proof (stop_loop_inv env (set_order env (stopped_lives (live_set env) (tracked env w)))
                  (world (start_phase env w))) as [(_ & _ & Hn & _) _].
    fold (stop_phase env w) in Hn.
    destruct (res (start_phase env w)) as [[]|e]; simpl; [|done].
    by destruct (res (stop_phase env w)) as [[]|e]; simpl. }
  destruct (start_phase_spec env w) as [Hn _ _ _ Hl _ _ _]. simpl in Hn.
  apply Hl in Hm as [Hm|[_ Hr]]; [|lia].
  apply swept_lookup in Hm as [Hm _]. apply Hwf in Hm. simpl in Hm. lia.
Qed.

(** ** Archive file names *)

Example iso_epoch : fromtimestamp_isoformat 0 0 = Some "1970-01-01T00:00:00".
Proof. reflexivity. Qed.

Example iso_2020 : fromtimestamp_isoformat 0 1600000000 = Some "2020-09-13T12:26:40".
Proof. reflexivity. Qed.

Example iso_leap_day_tokyo :
  fromtimestamp_isoformat 32400 1582988399 = Some "2020-02-29T23:59:59".
Proof. reflexivity. Qed.

Example iso_year_10000 : fromtimestamp_isoformat 0 253402300800 = None.
Proof. reflexivity. Qed.

Lemma strip_colons_app s1 s2 :
  strip_colons (s1 +:+ s2) = strip_colons s1 +:+ strip_colons s2.
Proof.
  induction s1 as [|c s1 IH]; simpl; [done|].
  destruct (Ascii.eqb c ":"); simpl; by rewrite IH.
Qed.

Lemma strip_colons_no_colon s : has_char ":" s = false -> strip_colons s = s.
Proof.
  induction s as [|c s IH]; simpl; [done|].
  destruct (Ascii.eqb c ":"); simpl; [done|]. intros H. by rewrite IH.
Qed.

Lemma has_char_strip_colons s : has_char ":" (strip_colons s) = false.
Proof.
  induction s as [|c s IH]; simpl; [done|].
  destruct (Ascii.eqb c ":") eqn:E; simpl; [done|]. by rewrite E.
Qed.

Lemma report_basename_eq dt r :
  report_basename dt r = strip_colons dt +:+ "_" +:+ strip_colons (id (info r)).
Proof. unfold report_basename. by rewrite !strip_colons_app. Qed.

Lemma digit_not_colon n : Ascii.eqb (digit n) ":" = false.
Proof.
  unfold digit. pose proof (Z.mod_pos_bound n 10 ltac:(lia)) as Hb.
  assert (Z.to_nat (n mod 10) < 10)%nat as Hk by lia.
  revert Hk. generalize (Z.to_nat (n mod 10)). intros k Hk.
  do 10 (destruct k as [|k]; [reflexivity|]). lia.
Qed.

Lemma strip_colons_cons c s :
  strip_colons (String c s) =
    if Ascii.eqb c ":" then strip_colons s else String c (strip_colons s).
Proof. reflexivity. Qed.

Lemma strip_colons_digits width : forall n, strip_colons (digits width n) = digits width n.
Proof.
  induction width as [|width IH]; intros n; cbn [digits]; [done|].
  by rewrite strip_colons_app, IH, strip_colons_cons, digit_not_colon.
Qed.

#[local] Opaque digits.

(** The start time as it appears in a file name: [YYYY-MM-DDTHHMMSS]. *)
Lemma strip_colons_isoformat offset ts dt :
  fromtimestamp_isoformat offset ts = Some dt ->
  let local := (ts + offset)%Z in
  let '(y, m, d) := civil_from_days (local / 86400) in
  let secs := (local mod 86400)%Z in
  strip_colons dt =
    digits 4 y +:+ "-" +:+ digits 2 m +:+ "-" +:+ digits 2 d +:+ "T" +:+
    digits 2 (secs / 3600) +:+ digits 2 (secs mod 3600 / 60) +:+ digits 2 (secs mod 60).
Proof.
  unfold fromtimestamp_isoformat. cbv zeta.
  destruct (civil_from_days ((ts + offset) / 86400)) as [[y m] d].
  destruct (_ && _)%bool; [|done]. intros [= <-].
  rewrite !strip_colons_app, !strip_colons_digits. reflexivity.
Qed.
#[local] Transparent digits.

(** C8, as the code has it: a stop iteration that archives writes the
    report to [archives_dir/BASE.json.gz] and, with [dump_chat], the
    messages to [archives_dir/BASE_chat.json.gz], where BASE is the ISO
    start time, an underscore and the id, with every colon of that whole
    text removed: the colons of the id go too; an id without a colon is
    written as it is. *)
Theorem archive_file_names env v m w dt
    (Hm : live_monitors w !! v = Some m)
    (Hlen : (0 < report_len env (oid (report m)))%nat)
    (Hdt : fromtimestamp_isoformat (utc_offset env) (start_timestamp (info (report m))) = Some dt)
    (Hok : res (stop_live env v w) = Ok tt) :
  let base := strip_colons dt +:+ "_" +:+ strip_colons (id (info (report m))) in
  events (stop_live env v w) =
    EvTerminate v m ::
    (if dump_chat (options env)
     then [EvWrite (archives_dir (options env) +:+ "/" +:+ base +:+ "_chat.json.gz")
                   (MessagesJson (oid (report m)))]
     else []) ++
    [EvFinalize (oid (report m));
     EvWrite (archives_dir (options env) +:+ "/" +:+ base +:+ ".json.gz")
             (ReportJson (oid (report m)))] /\
  has_char ":" base = false /\
  (has_char ":" (id (info (report m))) = false ->
   base = strip_colons dt +:+ "_" +:+ id (info (report m))).
Proof.
  intros base.
  destruct (stop_live_ok_inv env v m w Hm Hlen Hok) as (dt' & Hdt' & ->).
  assert (dt' = dt) as -> by congruence.
  cbn [events]. unfold archive_events, report_path, messages_path, path_join.
  rewrite report_basename_eq. fold base. split; [done|]. split.
  - unfold base. rewrite <- (strip_colons_app "_"), <- strip_colons_app.
    apply has_char_strip_colons.
  - intros Hid. unfold base. by rewrite (strip_colons_no_colon _ Hid).
Qed.

Lemma archive_file_names_witness :
  let m := mkMonitor Scenario.info_B (mkLiveReport 1 Scenario.info_B) in
  events (stop_live (Scenario.env_of ["A"] []) "B" (world Scenario.cycle1)) =
    [EvTerminate "B" m; EvFinalize 1;
     EvWrite "archives/2020-09-13T122820_B.json.gz" (ReportJson 1)].
Proof.
  intros m.
  destruct (archive_file_names (Scenario.env_of ["A"] []) "B" m (world Scenario.cycle1)
              "2020-09-13T12:28:20") as (Hev & _ & _).
  - vm_compute. reflexivity.
  - vm_compute. lia.
  - vm_compute. reflexivity.
  - vm_compute. reflexivity.
  - exact Hev.
Defined.

(** C8 as the spec states it fails for an id that holds a colon: the
    colon is removed from the id in the file name. *)
Lemma colon_in_id_counterexample :
  let i := mkLiveInfo "a:b" 1600000000 in
  let m := mkMonitor i (mkLiveReport 0 i) in
  let w := mkWorld {[ "a:b" := m ]} [] [] 1 in
  events (update (Scenario.env_of [] []) w) =
    [EvJetriUpdate; EvTerminate "a:b" m; EvFinalize 0;
     EvWrite "archives/2020-09-13T122640_ab.json.gz" (ReportJson 0)] /\
  "archives/2020-09-13T122640_ab.json.gz" ≠
    "archives" +:+ "/" +:+ strip_colons "2020-09-13T12:26:40" +:+ "_" +:+ "a:b" +:+ ".json.gz".
Proof.
  intros i m w. split; [vm_compute; reflexivity | vm_compute; discriminate].
Qed.

(** ** Failures *)

Lemma start_phase_fetch_fails env w v :
  valid_order env ->
  v ∈ new_lives (live_set env) (tracked env w) ->
  get_live_info env v = None ->
  is_ok (res (start_phase env w)) = false.
Proof.
  intros Hord Hv Hi. unfold start_phase.
  apply (for_each_raises (fun _ => True) _ _ v); try done.
  - by apply elem_of_set_order.
  - intros w' _. by rewrite (start_live_raise _ _ _ Hi).
Qed.

Lemma stop_phase_write_fails env w v m :
  valid_order env ->
  live_monitors (swept env w) !! v = Some m ->
  v ∉ live_set env ->
  (0 < report_len env (oid (report m)))%nat ->
  (forall dt,
     fromtimestamp_isoformat (utc_offset env) (start_timestamp (info (report m))) = Some dt ->
     gzip_open_ok env (report_path (options env) (report_basename dt (report m))) = false) ->
  is_ok (res (stop_phase env w)) = false.
Proof.
  intros Hord Hm Hnl Hlen Hfail. unfold stop_phase.
  apply (for_each_raises
           (fun w' => live_monitors w' = live_monitors (world (start_phase env w))) _ _ v);
    try done.
  - apply elem_of_set_order; [done|]. apply stopped_lives_spec.
    split; [|done]. apply elem_of_tracked. eauto.
  - intros y w' Hw'. pose proof (stop_live_world env y w') as (-> & _). done.
  - intros w' Hw'. apply (stop_live_write_fails env v m w'); [|done..].
    rewrite Hw', <- update_live_monitors. by apply update_keeps_tracked.
Qed.

Lemma update_raises env w :
  is_ok (res (start_phase env w)) = false \/ is_ok (res (stop_phase env w)) = false ->
  is_ok (res (update env w)) = false.
Proof.
  rewrite update_run.
  destruct (res (start_phase env w)) as [[]|e]; simpl; [|done].
  destruct (res (stop_phase env w)) as [[]|e]; simpl; [|done].
  by intros [?|?].
Qed.

(** C2, as the code has it: nothing in [update] catches an exception.
    When the metadata fetch of a new id fails, the cycle raises out of the
    start loop: what was done before stays, no stopped id is handled and
    the archive list is neither extended nor pruned.  When the archive file
    of a stopped broadcast cannot be written, the cycle raises out of the
    stop loop, before pruning. *)
Theorem failure_aborts_cycle env w (Hord : valid_order env) :
  (forall v,
     v ∈ new_lives (live_set env) (tracked env w) ->
     get_live_info env v = None ->
     is_ok (res (update env w)) = false /\
     world (update env w) = world (start_phase env w) /\
     events (update env w) =
       refresh_events env w ++ [EvJetriUpdate] ++ events (start_phase env w) /\
     archive_reports (world (update env w)) = archive_reports w /\
     (forall v' m', EvTerminate v' m' ∉ events (update env w))) /\
  (forall v m,
     live_monitors (swept env w) !! v = Some m ->
     v ∉ live_set env ->
     (0 < report_len env (oid (report m)))%nat ->
     (forall dt,
        fromtimestamp_isoformat (utc_offset env) (start_timestamp (info (report m))) = Some dt ->
        gzip_open_ok env (report_path (options env) (report_basename dt (report m))) = false) ->
     is_ok (res (update env w)) = false /\
     (res (start_phase env w) = Ok tt -> world (update env w) = world (stop_phase env w))).
Proof.
  split.
  - intros v Hv Hi.
    pose proof (start_phase_fetch_fails env w v Hord Hv Hi) as Hraise.
    assert (world (update env w) = world (start_phase env w) /\
            events (update env w) =
              refresh_events env w ++ [EvJetriUpdate] ++ events (start_phase env w))
      as [Hw Hev].
    { rewrite update_run. destruct (res (start_phase env w)) as [[]|e]; [done|].
      simpl. by rewrite <- app_assoc. }
    split; [apply update_raises; by left|]. split; [done|]. split; [done|]. split.
    + rewrite Hw. by destruct (start_phase_spec env w) as [_ _ -> _ _ _ _ _].
    + intros v' m' He. rewrite Hev in He.
      apply elem_of_app in He as [He|He].
      * by apply refresh_events_set_groupers in He as (_ & ? & ? & _ & ?).
      * apply elem_of_app in He as [He|He]; [by apply list_elem_of_singleton in He|].
        destruct (start_phase_spec env w) as [_ _ _ _ _ Hok _ _].
        rewrite Forall_forall in Hok. by apply Hok in He.
  - intros v m Hm Hnl Hlen Hfail.
    pose proof (stop_phase_write_fails env w v m Hord Hm Hnl Hlen Hfail) as Hraise.
    split; [apply update_raises; by right|].
    intros Hstart. rewrite update_run, Hstart.
    by destruct (res (stop_phase env w)) as [[]|e].
Qed.

Lemma failure_aborts_cycle_witness :
  let env := Scenario.env_of ["A"; "C"] [] in
  let w := world Scenario.cycle1 in
  is_ok (res (update env w)) = false /\
  events (update env w) = [EvJetriUpdate; EvGetLiveInfo "C"].
Proof.
  intros env w.
  destruct (failure_aborts_cycle env w) as [Hfetch _]; [intros s; reflexivity|].
  destruct (Hfetch "C") as (Hraise & _ & Hev & _).
  - vm_compute. reflexivity.
  - reflexivity.
  - split; [exact Hraise|]. etransitivity; [exact Hev|]. vm_compute. reflexivity.
Defined.

(** C2 as the spec states it fails: the fetch for the new id "C" fails
    and the stopped id "B", whose own handling would succeed, is not
    handled in that cycle; and when the archive file of the stopped "A"
    cannot be opened, the stopped "B" is not handled either. *)
Lemma failure_scoped_counterexample :
  let w := world Scenario.cycle1 in
  (let env := Scenario.env_of ["A"; "C"] [] in
   "B" ∈ stopped_lives (live_set env) (tracked env w) /\
   res (update env w) = Raise (FetchError "C") /\
   events (update env w) = [EvJetriUpdate; EvGetLiveInfo "C"]) /\
  (let env := Scenario.env_with [] [] (fun _ => 3%nat)
                (fun path => negb (String.eqb path "archives/2020-09-13T122640_A.json.gz")) in
   "B" ∈ stopped_lives (live_set env) (tracked env w) /\
   res (update env w) = Raise (OSError "archives/2020-09-13T122640_A.json.gz") /\
   events (update env w) =
     [EvJetriUpdate;
      EvTerminate "A" (mkMonitor Scenario.info_A (mkLiveReport 0 Scenario.info_A));
      EvFinalize 0]).
Proof.
  intros w. split; (split; [|split]); vm_compute; reflexivity.
Qed.

(** ** A failed archive write *)

Lemma stop_live_finalize_before_write env v m w dt :
  live_monitors w !! v = Some m ->
  (0 < report_len env (oid (report m)))%nat ->
  fromtimestamp_isoformat (utc_offset env) (start_timestamp (info (report m))) = Some dt ->
  (dump_chat (options env) = true ->
   gzip_open_ok env (messages_path (options env) (report_basename dt (report m))) = true) ->
  gzip_open_ok env (report_path (options env) (report_basename dt (report m))) = false ->
  EvFinalize (oid (report m)) ∈ events (stop_live env v w) /\
  res (stop_live env v w) =
    Raise (OSError (report_path (options env) (report_basename dt (report m)))).
Proof.
  intros Hm Hlen Hdt Hchat Hrep. step_unfold. rewrite Hm. simpl.
  apply Nat.ltb_lt in Hlen. rewrite Hlen, Hdt.
  destruct (dump_chat (options env)); simpl.
  - rewrite Hchat by done. simpl. rewrite Hrep. simpl. split; [|done]. do 2 right. left.
  - rewrite Hrep. simpl. split; [|done]. right. left.
Qed.

(** C3, as the code has it: when the archive file of a stopped broadcast
    with a non-empty report cannot be written, its iteration raises after
    [finalize] and leaves the world as it was, the cycle raises, and the
    report is in the in-memory list after the cycle only if it was there
    before: it is NOT appended. *)
Theorem write_failure_skips_append env w v m
    (Hord : valid_order env)
    (Hm : live_monitors (swept env w) !! v = Some m)
    (Hnl : v ∉ live_set env)
    (Hlen : (0 < report_len env (oid (report m)))%nat)
    (Hfail : forall dt,
       fromtimestamp_isoformat (utc_offset env) (start_timestamp (info (report m))) = Some dt ->
       gzip_open_ok env (report_path (options env) (report_basename dt (report m))) = false) :
  (forall w1, live_monitors w1 !! v = Some m ->
              world (stop_live env v w1) = w1 /\
              is_ok (res (stop_live env v w1)) = false) /\
  (forall w1 dt,
     live_monitors w1 !! v = Some m ->
     fromtimestamp_isoformat (utc_offset env) (start_timestamp (info (report m))) = Some dt ->
     (dump_chat (options env) = true ->
      gzip_open_ok env (messages_path (options env) (report_basename dt (report m))) = true) ->
     EvFinalize (oid (report m)) ∈ events (stop_live env v w1)) /\
  is_ok (res (update env w)) = false /\
  (report m ∈ archive_reports (world (update env w)) -> report m ∈ archive_reports w).
Proof.
  split; [|split; [|split]].
  - intros w1 Hm1. by apply (stop_live_write_fails env v m w1).
  - intros w1 dt Hm1 Hdt Hchat.
    by apply (stop_live_finalize_before_write env v m w1 dt Hm1 Hlen Hdt Hchat (Hfail dt Hdt)).
  - apply update_raises. right. by apply (stop_phase_write_fails env w v m).
  - intros Hin. destruct (update_archive_added env w) as (added & Hadded & Hsub).
    apply Hsub in Hin. apply elem_of_app in Hin as [Hin|Hin]; [done|].
    rewrite Forall_forall in Hadded. apply Hadded in Hin as (_ & dt & Hdt & Hopen).
    rewrite (Hfail dt Hdt) in Hopen. done.
Qed.

Lemma write_failure_skips_append_witness :
  let env := Scenario.env_with ["A"] [] (fun _ => 3%nat) (fun _ => false) in
  let w := world Scenario.cycle1 in
  is_ok (res (update env w)) = false /\
  archive_reports (world (update env w)) = [].
Proof.
  intros env w.
  destruct (write_failure_skips_append env w "B"
              (mkMonitor Scenario.info_B (mkLiveReport 1 Scenario.info_B)))
    as (_ & _ & Hraise & _).
  - intros s; reflexivity.
  - vm_compute. reflexivity.
  - vm_compute. intros H. by repeat (apply elem_of_cons in H as [H|H]; [done|]).
  - vm_compute. lia.
  - intros dt _. reflexivity.
  - split; [exact Hraise|]. vm_compute. reflexivity.
Defined.

(** C3 as the spec states it fails: "B" stopped with a non-empty report,
    its archive file cannot be opened; the report is finalized, the cycle
    raises and the in-memory archive list stays empty. *)
Lemma write_failure_counterexample :
  let env := Scenario.env_with ["A"] [] (fun _ => 3%nat) (fun _ => false) in
  let w := world Scenario.cycle1 in
  "B" ∈ stopped_lives (live_set env) (tracked env w) /\
  report_len env 1 = 3%nat /\
  events (update env w) =
    [EvJetriUpdate;
     EvTerminate "B" (mkMonitor Scenario.info_B (mkLiveReport 1 Scenario.info_B));
     EvFinalize 1] /\
  res (update env w) = Raise (OSError "archives/2020-09-13T122820_B.json.gz") /\
  archive_reports (world (update env w)) = [].
Proof.
  intros env w. repeat split; vm_compute; reflexivity.
Qed.

(** ** How a cycle ends *)

Section LoopEnds.
Context {A : Type}.
Implicit Types (l : list A) (body : A -> Py unit).

(** A loop that raises does so in one of its iterations. *)
Lemma for_each_raise_inv (I : World -> Prop) l body e :
  (forall y w, I w -> I (world (body y w))) ->
  forall w, I w ->
    res (for_each l body w) = Raise e ->
    exists x w', x ∈ l /\ I w' /\ res (body x w') = Raise e.
Proof.
  intros Hinv. induction l as [|y l IH]; intros w Hw Hr; [done|].
  rewrite for_each_cons in Hr.
  destruct (res (body y w)) as [[]|e'] eqn:E.
  - rewrite (bind_run_ok _ _ _ _ E) in Hr. cbn [res] in Hr.
    destruct (IH _ (Hinv y w Hw) Hr) as (x & w' & Hx & Hw' & Hx').
    exists x, w'. split; [by right | done].
  - rewrite (bind_run_raise _ _ _ _ E) in Hr. cbn [res] in Hr.
    injection Hr as ->. exists y, w. split; [left | done].
Qed.

(** A loop whose iterations all end normally ends normally. *)
Lemma for_each_all_ok (I : World -> Prop) l body :
  (forall y w, y ∈ l -> I w -> I (world (body y w)) /\ res (body y w) = Ok tt) ->
  forall w, I w -> res (for_each l body w) = Ok tt.
Proof.
  induction l as [|y l IH]; intros Hbody w Hw; [done|].
  destruct (Hbody y w) as [Hw1 Hok]; [left | done |].
  rewrite for_each_cons, (bind_run_ok _ _ _ _ Hok). cbn [res].
  apply IH; [|done]. intros z w' Hz. apply Hbody. by right.
Qed.
End LoopEnds.

Lemma stop_live_is_ok env v m w :
  live_monitors w !! v = Some m ->
  is_ok (res (stop_live env v w)) = stop_ok env m.
Proof.
  intros Hm. unfold stop_ok. step_unfold. rewrite Hm. simpl.
  destruct (0 <? report_len env (oid (report m)))%nat; simpl; [|done].
  destruct (fromtimestamp_isoformat _ _) as [dt|]; simpl; [|done].
  destruct (dump_chat (options env)); simpl.
  - destruct (gzip_open_ok env (messages_path _ _)); simpl; [|done].
    by destruct (gzip_open_ok env (report_path _ _)).
  - by destruct (gzip_open_ok env (report_path _ _)).
Qed.

Lemma start_phase_lookup_tracked env w v :
  valid_order env ->
  v ∈ tracked env w ->
  live_monitors (world (start_phase env w)) !! v = live_monitors (swept env w) !! v.
Proof.
  intros Hord Hv. destruct (start_phase_spec env w) as [_ _ _ Ho _ _ _ _].
  apply Ho. rewrite elem_of_set_order by done. rewrite new_lives_spec. tauto.
Qed.

Lemma start_phase_ok env w :
  valid_order env ->
  (forall v, v ∈ new_lives (live_set env) (tracked env w) -> is_Some (get_live_info env v)) ->
  res (start_phase env w) = Ok tt.
Proof.
  intros Hord Hall. unfold start_phase.
  apply (for_each_all_ok (fun _ => True)); [|done].
  intros v w' Hv _. split; [done|].
  apply elem_of_set_order in Hv; [|done].
  destruct (Hall v Hv) as [i Hi]. by rewrite (start_live_ok _ _ _ _ Hi).
Qed.

Lemma stop_phase_ok env w :
  valid_order env ->
  (forall v m, live_monitors (swept env w) !! v = Some m -> v ∉ live_set env ->
               stop_ok env m = true) ->
  res (stop_phase env w) = Ok tt.
Proof.
  intros Hord Hall. unfold stop_phase.
  apply (for_each_all_ok
           (fun w' => live_monitors w' = live_monitors (world (start_phase env w))));
    [|done].
  intros v w' Hv Hw'.
  pose proof (stop_live_world env v w') as (Hreg & _). split; [congruence|].
  apply elem_of_set_order in Hv; [|done].
  apply stopped_lives_spec in Hv as [Ht Hnl].
  pose proof (start_phase_lookup_tracked env w v Hord Ht) as Hlk.
  apply elem_of_tracked in Ht as [m Hm].
  assert (live_monitors w' !! v = Some m) as Hm' by congruence.
  apply res_unit_ok. rewrite (stop_live_is_ok env v m w' Hm'). by apply (Hall v m).
Qed.

(** With the calls that the embedding takes to return, a cycle ends
    normally exactly when the metadata of every new id can be fetched and,
    for every tracked monitor whose id is not live, the report is empty or
    its start time is in the range of [fromtimestamp] and its files can be
    opened. *)
Lemma update_ok_criterion env w (Hord : valid_order env) :
  res (update env w) = Ok tt <->
  (forall v, v ∈ new_lives (live_set env) (tracked env w) -> is_Some (get_live_info env v)) /\
  (forall v m, live_monitors (swept env w) !! v = Some m -> v ∉ live_set env ->
               stop_ok env m = true).
Proof.
  split.
  - intros Hok. pose proof (update_ok_inv env w Hok) as (Hstart & Hstop & _). split.
    + intros v Hv. destruct (get_live_info env v) as [i|] eqn:Hi; [eauto|].
      pose proof (start_phase_fetch_fails env w v Hord Hv Hi) as Hf.
      by rewrite Hstart in Hf.
    + intros v m Hm Hnl. destruct (stop_ok env m) eqn:Hs; [done|].
      assert (v ∈ set_order env (stopped_lives (live_set env) (tracked env w))) as Hv.
      { apply elem_of_set_order; [done|]. apply stopped_lives_spec.
        split; [|done]. apply elem_of_tracked. eauto. }
      assert (is_ok (res (stop_phase env w)) = false) as Hf; [|by rewrite Hstop in Hf].
      unfold stop_phase.
      apply (for_each_raises
               (fun w' => live_monitors w' = live_monitors (world (start_phase env w)))
               _ _ v); try done.
      * intros y w' Hw'. pose proof (stop_live_world env y w') as (-> & _). done.
      * intros w' Hw'. rewrite (stop_live_is_ok env v m w'); [done|].
        rewrite Hw', start_phase_lookup_tracked; [done..|].
        apply elem_of_tracked. eauto.
  - intros [Hnew Hstopped]. rewrite update_run.
    rewrite (start_phase_ok env w Hord Hnew), (stop_phase_ok env w Hord Hstopped). done.
Qed.

(** X1: a cycle ends normally only if the metadata of every new id was
    fetched and, for every tracked monitor whose id is not live, the report
    is empty or its start time is in the range of [fromtimestamp] and its
    files could be opened. *)
Theorem update_ok_requires env w
    (Hord : valid_order env) (Hok : res (update env w) = Ok tt) :
  (forall v, v ∈ new_lives (live_set env) (tracked env w) -> is_Some (get_live_info env v)) /\
  (forall v m, live_monitors (swept env w) !! v = Some m -> v ∉ live_set env ->
               stop_ok env m = true).
Proof. by apply (update_ok_criterion env w Hord). Qed.

Lemma update_ok_requires_witness :
  let env := Scenario.env_of ["A"] [] in
  let w := world Scenario.cycle1 in
  (forall v, v ∈ new_lives (live_set env) (tracked env w) -> is_Some (get_live_info env v)) /\
  (forall v m, live_monitors (swept env w) !! v = Some m -> v ∉ live_set env ->
               stop_ok env m = true).
Proof.
  intros env w. apply (update_ok_requires env w).
  - intros s; reflexivity.
  - vm_compute. reflexivity.
Defined.

Lemma start_live_raise_inv env v w e :
  res (start_live env v w) = Raise e ->
  get_live_info env v = None /\ e = FetchError v.
Proof.
  destruct (get_live_info env v) as [i|] eqn:Hi.
  - by rewrite (start_live_ok _ _ _ _ Hi).
  - rewrite (start_live_raise _ _ _ Hi). by intros [= <-].
Qed.

Lemma stop_live_raise_inv env v m w e :
  live_monitors w !! v = Some m ->
  res (stop_live env v w) = Raise e ->
  stop_failure env m e.
Proof.
  intros Hm. unfold stop_failure. step_unfold. rewrite Hm. simpl.
  destruct (0 <? report_len env (oid (report m)))%nat eqn:Hlen; simpl; [|done].
  apply Nat.ltb_lt in Hlen.
  destruct (fromtimestamp_isoformat _ _) as [dt|]; simpl; [|by intros [= <-]].
  destruct (dump_chat (options env)); simpl.
  - destruct (gzip_open_ok env (messages_path _ _)) eqn:Hc; simpl.
    + destruct (gzip_open_ok env (report_path _ _)) eqn:Hr; simpl; [done|].
      intros [= <-]. split; [done|]. by right.
    + intros [= <-]. split; [done|]. by left.
  - destruct (gzip_open_ok env (report_path _ _)) eqn:Hr; simpl; [done|].
    intros [= <-]. split; [done|]. by right.
Qed.

(** The exceptions of a cycle, among those the embedding has. *)
Lemma update_raise_cases env w e
    (Hord : valid_order env) (Hraise : res (update env w) = Raise e) :
  (exists v, v ∈ new_lives (live_set env) (tracked env w) /\
             get_live_info env v = None /\ e = FetchError v) \/
  (exists v m, live_monitors (swept env w) !! v = Some m /\ (v ∉ live_set env) /\
               stop_failure env m e).
Proof.
  rewrite update_run in Hraise.
  destruct (res (start_phase env w)) as [[]|e1] eqn:E1.
  - destruct (res (stop_phase env w)) as [[]|e2] eqn:E2; [done|].
    simpl in Hraise. injection Hraise as ->. right.
    unfold stop_phase in E2.
    apply (for_each_raise_inv
             (fun w' => live_monitors w' = live_monitors (world (start_phase env w))))
      in E2 as (v & w' & Hv & Hw' & Hr); [| |done].
    + apply elem_of_set_order in Hv; [|done].
      apply stopped_lives_spec in Hv as [Ht Hnl].
      pose proof (start_phase_lookup_tracked env w v Hord Ht) as Hlk.
      apply elem_of_tracked in Ht as [m Hm].
      exists v, m. split; [done|]. split; [done|].
      apply (stop_live_raise_inv env v m w'); [congruence | done].
    + intros y w' Hw'. pose proof (stop_live_world env y w') as (-> & _). done.
  - simpl in Hraise. injection Hraise as ->. left.
    unfold start_phase in E1.
    apply (for_each_raise_inv (fun _ => True)) in E1 as (v & w' & Hv & _ & Hr); [|done..].
    apply elem_of_set_order in Hv; [|done].
    apply start_live_raise_inv in Hr as [Hi ->]. by exists v.
Qed.

(** X2: the dictionary accesses of a cycle never raise a [KeyError]: the
    ids the clean-up deletes are keys of the registry, and so are the ids
    the stop loop looks up. *)
Theorem update_no_key_error env w k (Hord : valid_order env) :
  res (update env w) ≠ Raise (KeyError k).
Proof.
  intros Hr. apply update_raise_cases in Hr; [|done].
  destruct Hr as [(v & _ & _ & Hv)|(v & m & _ & _ & [_ Hf])]; [done|].
  destruct (fromtimestamp_isoformat _ _) as [dt|]; [|done].
  by destruct Hf as [(_ & _ & ?)|(_ & ?)].
Qed.

Lemma update_no_key_error_witness :
  res (update (Scenario.env_of ["A"; "C"] []) (world Scenario.cycle1)) ≠ Raise (KeyError "C").
Proof. apply update_no_key_error. intros s; reflexivity. Defined.

(** ** A cycle with nothing to do *)

Lemma set_order_empty env : valid_order env -> set_order env ∅ = [].
Proof.
  intros Hord. apply Permutation_nil_r. rewrite (Hord ∅). by rewrite elements_empty.
Qed.





(** ** What gets archived *)

Lemma stop_loop_added_from env l w :
  exists added,
    archive_reports (world (for_each l (stop_live env) w)) = archive_reports w ++ added /\
    Forall (fun r => exists v m, v ∈ l /\ live_monitors w !! v = Some m /\
                                 r = report m /\ archivable env r) added.
Proof.
  pose (I := fun w' : World =>
    live_monitors w' = live_monitors w /\
    exists added,
      archive_reports w' = archive_reports w ++ added /\
      Forall (fun r => exists v m, v ∈ l /\ live_monitors w !! v = Some m /\
                                   r = report m /\ archivable env r) added).
  destruct (for_each_inv I (fun _ => True) l (stop_live env)) with (w := w) as [[_ H] _];
    [| |done].
  - intros v w' Hv (Hreg & added & Harch & Hadded).
    pose proof (stop_live_world env v w') as (Hreg' & _ & _ & Harch').
    split; [|by apply Forall_forall].
    split; [congruence|].
    destruct Harch' as [Hsame | (m & Hm & Ha & _ & Happ)].
    + exists added. by rewrite Hsame.
    + exists (added ++ [report m]). rewrite Happ, Harch, app_assoc. split; [done|].
      apply Forall_app. split; [done|]. constructor; [|done].
      exists v, m. rewrite <- Hreg. done.
  - split; [done|]. exists []. by rewrite app_nil_r.
Qed.

Lemma archived_from env w r
    (Hord : valid_order env)
    (Hin : r ∈ archive_reports (world (update env w))) :
  r ∈ archive_reports w \/
  exists v m, live_monitors w !! v = Some m /\ is_running env m = true /\
              (v ∉ live_set env) /\ r = report m /\ archivable env r.
Proof.
  destruct (stop_loop_added_from env
              (set_order env (stopped_lives (live_set env) (tracked env w)))
              (world (start_phase env w))) as (added & Harch & Hadded).
  fold (stop_phase env w) in Harch.
  destruct (start_phase_spec env w) as [_ _ Ha _ _ _ _ _]. simpl in Ha.
  assert (r ∈ archive_reports w ++ added) as Hr.
  { revert Hin. rewrite update_run.
    destruct (res (start_phase env w)) as [[]|e]; simpl.
    - destruct (res (stop_phase env w)) as [[]|e]; simpl.
      + intros Hr. apply list_elem_of_filter in Hr as [_ Hr]. by rewrite Harch, Ha in Hr.
      + intros Hr. by rewrite Harch, Ha in Hr.
    - rewrite Ha. intros Hr. apply elem_of_app. by left. }
  apply elem_of_app in Hr as [Hr|Hr]; [by left|]. right.
  rewrite Forall_forall in Hadded. apply Hadded in Hr as (v & m & Hv & Hm & -> & Harc).
  apply elem_of_set_order in Hv; [|done]. apply stopped_lives_spec in Hv as [Ht Hnl].
  rewrite (start_phase_lookup_tracked env w v Hord Ht) in Hm.
  apply swept_lookup in Hm as [Hm Hrun]. by exists v, m.
Qed.

(** X4: a report enters the in-memory archive list only as the non-empty
    report of a registered monitor that is still running and whose id is
    not live: never for a broadcast that is live, never for a monitor the
    clean-up deleted, never for a monitor started in the cycle. *)
Theorem archived_only_stopped env w r
    (Hord : valid_order env)
    (Hin : r ∈ archive_reports (world (update env w))) :
  r ∈ archive_reports w \/
  exists v m, live_monitors w !! v = Some m /\ is_running env m = true /\
              (v ∉ live_set env) /\ r = report m /\ archivable env r.
Proof. by apply archived_from. Qed.

Lemma archived_only_stopped_witness :
  let env := Scenario.env_of ["A"] [] in
  let r := mkLiveReport 1 Scenario.info_B in
  r ∈ archive_reports (world Scenario.cycle1) \/
  exists v m, live_monitors (world Scenario.cycle1) !! v = Some m /\
              is_running env m = true /\ (v ∉ live_set env) /\ r = report m /\
              archivable env r.
Proof.
  intros env r. apply (archived_only_stopped env (world Scenario.cycle1) r).
  - intros s; reflexivity.
  - vm_compute. left.
Defined.

Lemma to_archive_ext env monitors1 monitors2 l :
  (forall v, v ∈ l -> monitors1 !! v = monitors2 !! v) ->
  to_archive env monitors1 l = to_archive env monitors2 l.
Proof.
  intros H. unfold to_archive. induction l as [|v l IH]; [done|]. csimpl.
  rewrite (H v) by left. rewrite IH; [done|]. intros v' Hv'. apply H. by right.
Qed.

Lemma update_ok_archive_eq env w :
  valid_order env ->
  res (update env w) = Ok tt ->
  archive_reports (world (update env w)) =
    filter (fun r => (cutoff env < start_timestamp (info r))%Z)
      (archive_reports w ++
       to_archive env (live_monitors (swept env w))
         (set_order env (stopped_lives (live_set env) (tracked env w)))).
Proof.
  intros Hord Hok. pose proof (update_ok_inv env w Hok) as (_ & Hstop & ->). simpl.
  pose proof (stop_loop_ok env _ _ Hstop) as Ha. fold (stop_phase env w) in Ha.
  destruct (start_phase_spec env w) as [_ _ Ha0 _ _ _ _ _]. simpl in Ha0.
  rewrite Ha, Ha0. f_equal. f_equal. apply to_archive_ext.
  intros v Hv. apply start_phase_lookup_tracked; [done|].
  apply elem_of_set_order in Hv; [|done]. by apply stopped_lives_spec in Hv as [? _].
Qed.

(** X5: after a cycle that ends normally the in-memory archive list is the
    list before the cycle followed by the non-empty reports of the tracked
    monitors whose id is not live, in the order the stop loop visits them,
    with the entries at or below the cut-off removed; every entry left is
    above the cut-off. *)
Theorem update_ok_archive env w
    (Hord : valid_order env) (Hok : res (update env w) = Ok tt) :
  archive_reports (world (update env w)) =
    filter (fun r => (cutoff env < start_timestamp (info r))%Z) (archive_reports w) ++
    filter (fun r => (cutoff env < start_timestamp (info r))%Z)
      (to_archive env (live_monitors (swept env w))
         (set_order env (stopped_lives (live_set env) (tracked env w)))) /\
  Forall (fun r => (cutoff env < start_timestamp (info r))%Z)
         (archive_reports (world (update env w))).
Proof.
  split.
  - rewrite update_ok_archive_eq by done. apply filter_app.
  - by apply update_ok_archive_recent.
Qed.

Lemma update_ok_archive_witness :
  archive_reports (world Scenario.cycle3) =
    [mkLiveReport 1 Scenario.info_B; mkLiveReport 1 Scenario.info_B].
Proof.
  destruct (update_ok_archive (Scenario.env_of ["A"] []) (world Scenario.cycle2)) as [Heq _].
  - intros s; reflexivity.
  - vm_compute. reflexivity.
  - etransitivity; [exact Heq|]. vm_compute. reflexivity.
Defined.

(** ** Monitors that died *)

Lemma start_loop_started env l : forall w k m',
  live_monitors (world (for_each l (start_live env) w)) !! k = Some m' ->
  live_monitors w !! k = Some m' \/
  (k ∈ l /\ get_live_info env k = Some (mon_info m') /\
   info (report m') = mon_info m' /\
   (next_oid w <= oid (report m'))%nat /\
   EvStart k m' ∈ events (for_each l (start_live env) w)).
Proof.
  induction l as [|v l IH]; intros w k m' Hk; [by left|].
  rewrite for_each_cons in Hk |- *.
  destruct (get_live_info env v) as [i|] eqn:Hi.
  - revert Hk. erewrite bind_run_ok by (by rewrite (start_live_ok _ _ _ _ Hi)).
    rewrite (start_live_ok _ _ _ _ Hi). cbn [world events res].
    set (m := mkMonitor i (mkLiveReport (next_oid w) i)).
    set (w1 := mkWorld _ _ _ _). intros Hk.
    apply IH in Hk as [Hk | (Hkl & Hg & Hinfo & Hn & Hev)].
    + simpl in Hk. destruct (decide (v = k)) as [->|Hne].
      * rewrite lookup_insert_eq in Hk. injection Hk as <-. right.
        split; [left|]. repeat split; try done. do 2 right. left.
      * rewrite lookup_insert_ne in Hk by done. by left.
    + right. split; [by right|]. repeat split; try done.
      * simpl in Hn. lia.
      * do 3 right. done.
  - revert Hk. rewrite (bind_run_raise _ _ _ (FetchError v))
      by (by rewrite (start_live_raise _ _ _ Hi)).
    rewrite (start_live_raise _ _ _ Hi). cbn [world]. by left.
Qed.

Lemma update_started env w k m' :
  valid_order env ->
  live_monitors (world (update env w)) !! k = Some m' ->
  (live_monitors w !! k = Some m' /\ is_running env m' = true) \/
  (k ∈ new_lives (live_set env) (tracked env w) /\
   get_live_info env k = Some (mon_info m') /\
   info (report m') = mon_info m' /\
   (next_oid w <= oid (report m'))%nat /\
   EvStart k m' ∈ events (update env w)).
Proof.
  intros Hord. rewrite update_live_monitors. intros Hk.
  apply start_loop_started in Hk as [Hk | (Hkl & Hg & Hinfo & Hn & Hev)].
  - left. by apply swept_lookup.
  - right. apply elem_of_set_order in Hkl; [|done]. repeat split; try done.
    rewrite update_events. apply elem_of_app. right. apply elem_of_app. right.
    apply elem_of_app. by left.
Qed.

(** X6: a registered monitor found not running while its id is still live
    is replaced in the same cycle: the clean-up deletes it without a
    terminate call, the start loop fetches the metadata again and registers
    a new monitor with a new report object; the report of the old monitor
    is not archived. *)
Theorem dead_monitor_restarted env w v m
    (Hord : valid_order env)
    (Hwf : registry_wf w) (Hinj : registry_inj w)
    (Hm : live_monitors w !! v = Some m)
    (Hdead : is_running env m = false)
    (Hlive : v ∈ live_set env)
    (Hok : res (update env w) = Ok tt) :
  (exists m',
     live_monitors (world (update env w)) !! v = Some m' /\
     get_live_info env v = Some (mon_info m') /\
     info (report m') = mon_info m' /\
     (next_oid w <= oid (report m'))%nat /\
     oid (report m') ≠ oid (report m) /\
     EvStart v m' ∈ events (update env w)) /\
  (forall m'', EvTerminate v m'' ∉ events (update env w)) /\
  (report m ∈ archive_reports (world (update env w)) -> report m ∈ archive_reports w).
Proof.
  assert (v ∉ tracked env w) as Hnt.
  { rewrite elem_of_tracked. intros [m0 Hm0]. apply swept_lookup in Hm0 as [Hm0 Hr].
    congruence. }
  split; [|split].
  - assert (v ∈ dom (live_monitors (world (update env w)))) as Hv.
    { rewrite update_ok_dom by done. apply elem_of_union. by right. }
    apply elem_of_dom in Hv as [m' Hm'].
    exists m'. split; [done|].
    destruct (update_started env w v m' Hord Hm') as [[Hold Hr]|(_ & Hg & Hinfo & Hn & Hev)].
    + congruence.
    + repeat split; try done. apply Hwf in Hm. simpl in Hm. lia.
  - intros m'' He. apply update_terminate_event in He as [He _]; [|done].
    apply stopped_lives_spec in He. tauto.
  - intros Hin.
    apply archived_from in Hin; [|done].
    destruct Hin as [Hin|(v2 & m2 & Hm2 & Hr2 & _ & Heq & _)]; [done|].
    assert (v = v2) as <- by (apply (Hinj v v2 m m2); congruence).
    congruence.
Qed.

Lemma scenario_cycle1_registry :
  map_to_list (live_monitors (world Scenario.cycle1)) =
    [("A", mkMonitor Scenario.info_A (mkLiveReport 0 Scenario.info_A));
     ("B", mkMonitor Scenario.info_B (mkLiveReport 1 Scenario.info_B))].
Proof. vm_compute. reflexivity. Qed.

Lemma scenario_cycle1_wf : registry_wf (world Scenario.cycle1).
Proof.
  apply map_Forall_to_list. rewrite scenario_cycle1_registry. repeat constructor.
Qed.

Lemma scenario_cycle1_inj : registry_inj (world Scenario.cycle1).
Proof.
  intros k1 k2 m1 m2 H1%elem_of_map_to_list H2%elem_of_map_to_list.
  rewrite scenario_cycle1_registry in H1, H2.
  apply elem_of_cons in H1 as [[= -> ->]|H1];
    [|apply list_elem_of_singleton in H1 as [= -> ->]];
    (apply elem_of_cons in H2 as [[= -> ->]|H2];
     [|apply list_elem_of_singleton in H2 as [= -> ->]]); done.
Qed.

Lemma dead_monitor_restarted_witness :
  let m := mkMonitor Scenario.info_A (mkLiveReport 0 Scenario.info_A) in
  (exists m',
     live_monitors (world Restart.cycle) !! "A" = Some m' /\
     get_live_info Restart.env "A" = Some (mon_info m') /\
     info (report m') = mon_info m' /\
     (next_oid (world Scenario.cycle1) <= oid (report m'))%nat /\
     oid (report m') ≠ oid (report m) /\
     EvStart "A" m' ∈ events Restart.cycle) /\
  (forall m'', EvTerminate "A" m'' ∉ events Restart.cycle) /\
  (report m ∈ archive_reports (world Restart.cycle) ->
   report m ∈ archive_reports (world Scenario.cycle1)).
Proof.
  intros m. apply (dead_monitor_restarted Restart.env (world Scenario.cycle1) "A" m).
  - intros s; reflexivity.
  - apply scenario_cycle1_wf.
  - apply scenario_cycle1_inj.
  - vm_compute. reflexivity.
  - reflexivity.
  - vm_compute. reflexivity.
  - vm_compute. reflexivity.
Defined.

(** ** Invariants of the registry *)

Lemma update_next_oid env w :
  next_oid (world (update env w)) = next_oid (world (start_phase env w)).
Proof.
  rewrite update_run.
  pose proof (stop_loop_inv env (set_order env (stopped_lives (live_set env) (tracked env w)))
                (world (start_phase env w))) as [(_ & _ & Hn & _) _].
  fold (stop_phase env w) in Hn.
  destruct (res (start_phase env w)) as [[]|e]; simpl; [|done].
  by destruct (res (stop_phase env w)) as [[]|e]; simpl.
Qed.

Lemma start_live_wf_inj env v w :
  registry_wf w /\ registry_inj w ->
  registry_wf (world (start_live env v w)) /\ registry_inj (world (start_live env v w)).
Proof.
  intros [Hwf Hinj]. destruct (get_live_info env v) as [i|] eqn:Hi.
  - rewrite (start_live_ok _ _ _ _ Hi). cbn [world]. split.
    + intros k m. simpl. destruct (decide (v = k)) as [->|Hne].
      * rewrite lookup_insert_eq. intros [= <-]. simpl. lia.
      * rewrite lookup_insert_ne by done. intros Hm. apply Hwf in Hm. simpl in Hm. lia.
    + intros k1 k2 m1 m2. simpl.
      destruct (decide (v = k1)) as [He1|Hne1], (decide (v = k2)) as [He2|Hne2].
      * congruence.
      * subst k1. rewrite lookup_insert_eq, lookup_insert_ne by done.
        intros [= <-] Hm2 Ho. apply Hwf in Hm2. simpl in *. lia.
      * subst k2. rewrite lookup_insert_eq, lookup_insert_ne by done.
        intros Hm1 [= <-] Ho. apply Hwf in Hm1. simpl in *. lia.
      * rewrite !lookup_insert_ne by done. apply Hinj.
  - by rewrite (start_live_raise _ _ _ Hi).
Qed.

Lemma update_wf_inj env w :
  registry_wf w /\ registry_inj w ->
  registry_wf (world (update env w)) /\ registry_inj (world (update env w)).
Proof.
  intros [Hwf Hinj].
  assert (registry_wf (swept env w) /\ registry_inj (swept env w)) as Hs.
  { split.
    - intros k m Hm. apply swept_lookup in Hm as [Hm _]. by apply Hwf in Hm.
    - intros k1 k2 m1 m2 H1 H2. apply swept_lookup in H1 as [H1 _].
      apply swept_lookup in H2 as [H2 _]. by apply (Hinj k1 k2 m1 m2). }
  destruct (for_each_inv (fun w' => registry_wf w' /\ registry_inj w') (fun _ => True)
              (set_order env (new_lives (live_set env) (tracked env w))) (start_live env))
    with (w := swept env w) as [[Hwf' Hinj'] _]; [|done|].
  - intros v w' _ Hw'. split; [by apply start_live_wf_inj | by apply Forall_forall].
  - fold (start_phase env w) in Hwf', Hinj'. split.
    + intros k m. rewrite update_live_monitors, update_next_oid. apply Hwf'.
    + intros k1 k2 m1 m2. rewrite update_live_monitors. apply Hinj'.
Qed.

(** X7: from construction on, through any sequence of cycles however each
    of them ends, the reports of the registered monitors are objects
    allocated before and no two registry entries share a report object. *)
Theorem registry_invariants envs g :
  registry_wf (run_cycles envs (init g)) /\ registry_inj (run_cycles envs (init g)).
Proof.
  assert (registry_wf (init g) /\ registry_inj (init g)) as H0.
  { split; [intros k m Hm | intros k1 k2 m1 m2 Hm]; simpl in Hm;
      by rewrite lookup_empty in Hm. }
  revert H0. generalize (init g). induction envs as [|env envs IH]; intros w Hw; [done|].
  simpl. apply IH. by apply update_wf_inj.
Qed.

(** ** The first cycle *)

Lemma tracked_init env g : tracked env (init g) = ∅.
Proof.
  apply set_eq. intros k. rewrite elem_of_tracked. split; [|by intros ?%not_elem_of_empty].
  intros [m Hm]. apply swept_lookup in Hm as [Hm _]. simpl in Hm.
  by rewrite lookup_empty in Hm.
Qed.

(** X8: the first cycle of a new supervisor, when it ends normally: the
    registry then holds exactly the live ids, each with a monitor built
    from its metadata and started in this cycle; nothing is signalled to
    terminate and nothing is archived. *)
Theorem first_cycle env g
    (Hord : valid_order env)
    (Hok : res (update env (init g)) = Ok tt) :
  let o := update env (init g) in
  dom (live_monitors (world o)) = live_set env /\
  (forall v, v ∈ live_set env ->
     exists m, live_monitors (world o) !! v = Some m /\
               get_live_info env v = Some (mon_info m) /\
               EvStart v m ∈ events o) /\
  (forall v m, EvTerminate v m ∉ events o) /\
  archive_reports (world o) = [].
Proof.
  intros o. unfold o.
  assert (dom (live_monitors (world (update env (init g)))) = live_set env) as Hdom.
  { rewrite update_ok_dom, tracked_init by done. apply (left_id_L ∅ (∪)). }
  split; [done|]. split; [|split].
  - intros v Hv. rewrite <- Hdom in Hv. apply elem_of_dom in Hv as [m Hm].
    exists m. split; [done|].
    destruct (update_started env (init g) v m Hord Hm) as [[Hold _]|(_ & Hg & _ & _ & Hev)];
      [|done].
    simpl in Hold. by rewrite lookup_empty in Hold.
  - intros v m He. apply update_terminate_event in He as [He _]; [|done].
    apply stopped_lives_spec in He as [He _]. rewrite tracked_init in He.
    by apply not_elem_of_empty in He.
  - rewrite update_ok_archive_eq by done.
    unfold stopped_lives. rewrite tracked_init.
    assert ((∅ : gset string) ∖ live_set env = ∅) as -> by set_solver.
    by rewrite set_order_empty by done.
Qed.

Lemma first_cycle_witness :
  dom (live_monitors (world Scenario.cycle1)) = live_set (Scenario.env_of ["A"; "B"] []) /\
  archive_reports (world Scenario.cycle1) = [].
Proof.
  destruct (first_cycle (Scenario.env_of ["A"; "B"] []) []) as (Hdom & _ & _ & Harch).
  - intros s; reflexivity.
  - vm_compute. reflexivity.
  - split; [exact Hdom | exact Harch].
Defined.

(** ** What a cycle does to the registry, however it ends *)

(** X9: whatever way a cycle ends, a registered monitor that is running
    keeps its registry entry, and every entry of the registry after the
    cycle is either such a monitor or a monitor started in this cycle for
    a live id that was not tracked, built from the metadata fetched for
    that id, with a report object allocated in the cycle. *)
Theorem registry_after_cycle env w (Hord : valid_order env) :
  (forall k m, live_monitors w !! k = Some m -> is_running env m = true ->
               live_monitors (world (update env w)) !! k = Some m) /\
  (forall k m, live_monitors (world (update env w)) !! k = Some m ->
     (live_monitors w !! k = Some m /\ is_running env m = true) \/
     (k ∈ live_set env /\ (k ∉ tracked env w) /\
      get_live_info env k = Some (mon_info m) /\
      info (report m) = mon_info m /\
      (next_oid w <= oid (report m))%nat /\
      EvStart k m ∈ events (update env w))).
Proof.
  split.
  - intros k m Hm Hrun. apply update_keeps_tracked; [done|]. by apply swept_lookup.
  - intros k m Hm.
    destruct (update_started env w k m Hord Hm) as [Hold|(Hk & Hg & Hinfo & Hn & Hev)];
      [by left|].
    right. apply new_lives_spec in Hk as [Hl Hnt]. done.
Qed.

Lemma registry_after_cycle_witness :
  live_monitors (world Scenario.cycle2) !! "A" =
    Some (mkMonitor Scenario.info_A (mkLiveReport 0 Scenario.info_A)).
Proof.
  destruct (registry_after_cycle (Scenario.env_of ["A"] []) (world Scenario.cycle1))
    as [Hkeep _]; [intros s; reflexivity|].
  apply Hkeep; [vm_compute; reflexivity | reflexivity].
Defined.

(** ** The iteration order of the two sets *)

(** X10: the order in which the two loops visit [new_lives] and
    [stopped_lives] does not decide whether a cycle ends normally; two
    cycles that differ only in that order and end normally leave the same
    registry keys, monitors with the same metadata under each key, the
    same groupers, and archive lists with the same entries, in a possibly
    different order. *)
Theorem update_order_independent env order w
    (Hord : valid_order env) (Hord' : valid_order (with_set_order order env)) :
  let o1 := update env w in
  let o2 := update (with_set_order order env) w in
  is_ok (res o1) = is_ok (res o2) /\
  (res o1 = Ok tt ->
   dom (live_monitors (world o1)) = dom (live_monitors (world o2)) /\
   (forall k m1 m2,
      live_monitors (world o1) !! k = Some m1 ->
      live_monitors (world o2) !! k = Some m2 ->
      mon_info m1 = mon_info m2 /\ info (report m1) = info (report m2)) /\
   groupers (world o1) = groupers (world o2) /\
   archive_reports (world o1) ≡ₚ archive_reports (world o2)).
Proof.
  intros o1 o2. unfold o1, o2.
  set (env' := with_set_order order env).
  assert (res (update env w) = Ok tt <-> res (update env' w) = Ok tt) as Hiff.
  { rewrite (update_ok_criterion env w Hord), (update_ok_criterion env' w Hord'). done. }
  split.
  - destruct (res (update env w)) as [[]|e1] eqn:E1.
    + by rewrite (proj1 Hiff eq_refl).
    + destruct (res (update env' w)) as [[]|e2] eqn:E2; [|done].
      by specialize (proj2 Hiff eq_refl).
  - intros Hok. pose proof (proj1 Hiff Hok) as Hok'.
    split; [|split; [|split]].
    + by rewrite (update_ok_dom env w Hord Hok), (update_ok_dom env' w Hord' Hok').
    + intros k m1 m2 H1 H2.
      destruct (update_started env w k m1 Hord H1) as [[Ho1 Hr1]|(Hk1 & Hg1 & Hi1 & _)];
        destruct (update_started env' w k m2 Hord' H2) as [[Ho2 Hr2]|(Hk2 & Hg2 & Hi2 & _)].
      * by assert (m1 = m2) as -> by congruence.
      * apply new_lives_spec in Hk2 as [_ Hk2]. exfalso. apply Hk2.
        apply elem_of_tracked. exists m1. by apply swept_lookup.
      * apply new_lives_spec in Hk1 as [_ Hk1]. exfalso. apply Hk1.
        apply elem_of_tracked. exists m2. by apply swept_lookup.
      * change (get_live_info env' k) with (get_live_info env k) in Hg2.
        assert (mon_info m1 = mon_info m2) as He by congruence.
        split; [done | congruence].
    + by rewrite !update_groupers.
    + rewrite (update_ok_archive_eq env w Hord Hok), (update_ok_archive_eq env' w Hord' Hok').
      apply filter_Permutation, Permutation_app_head.
      change (live_monitors (swept env' w)) with (live_monitors (swept env w)).
      unfold to_archive. apply omap_Permutation.
      change (set_order env' ?s) with (order s).
      rewrite (Hord _). symmetry. apply (Hord' _).
Qed.

Lemma update_order_independent_witness :
  let env := Scenario.env_of [] [] in
  let env' := with_set_order (fun s => reverse (elements s)) env in
  archive_reports (world (update env (world Scenario.cycle1))) ≡ₚ
  archive_reports (world (update env' (world Scenario.cycle1))).
Proof.
  intros env env'.
  destruct (update_order_independent env (fun s => reverse (elements s))
              (world Scenario.cycle1)) as [_ H].
  - intros s; reflexivity.
  - intros s. apply reverse_Permutation.
  - apply H. vm_compute. reflexivity.
Defined.

(** ** Pruning again *)

Lemma filter_above_twice (c1 c2 : Z) (l : list LiveReport) :
  (c1 <= c2)%Z ->
  filter (fun r => (c2 < start_timestamp (info r))%Z)
    (filter (fun r => (c1 < start_timestamp (info r))%Z) l) =
  filter (fun r => (c2 < start_timestamp (info r))%Z) l.
Proof.
  intros Hle. induction l as [|r l IH]; [done|].
  rewrite (filter_cons (fun r => (c1 < start_timestamp (info r))%Z)).
  rewrite (filter_cons (fun r => (c2 < start_timestamp (info r))%Z) r l).
  destruct (decide (c1 < start_timestamp (info r))%Z) as [H1|H1].
  - rewrite filter_cons. destruct (decide (c2 < start_timestamp (info r))%Z); by rewrite IH.
  - rewrite decide_False by lia. done.
Qed.

(** X11: pruning with a cut-off and then with a later one is pruning with
    the later one: pruning twice with the same clock and retention is the
    same as once, and entries dropped by an earlier cycle would be dropped
    by a later one. *)
Theorem prune_twice env1 env2 w (Hle : (cutoff env1 <= cutoff env2)%Z) :
  world (prune env2 (world (prune env1 w))) = world (prune env2 w).
Proof.
  simpl. unfold with_archive_reports. simpl. f_equal. by apply filter_above_twice.
Qed.

Lemma prune_twice_witness :
  let env := Scenario.env_of [] [] in
  let w := world Scenario.cycle3 in
  world (prune env (world (prune env w))) = world (prune env w).
Proof. intros env w. apply prune_twice. reflexivity. Defined.

(** ** Reports that are lost *)

Lemma update_next_oid_le env w : (next_oid w <= next_oid (world (update env w)))%nat.
Proof.
  rewrite update_next_oid. by destruct (start_phase_spec env w) as [Hn _ _ _ _ _ _ _].
Qed.

Lemma unregistered_update env w o :
  valid_order env -> unregistered o w -> unregistered o (world (update env w)).
Proof.
  intros Hord [Hreg Hlt]. split.
  - intros k m Hm.
    destruct (update_started env w k m Hord Hm) as [[Hold _]|(_ & _ & _ & Hn & _)].
    + by apply (Hreg k).
    + lia.
  - pose proof (update_next_oid_le env w). lia.
Qed.

Lemma unregistered_archive env w o r :
  valid_order env -> unregistered o w -> oid r = o ->
  r ∈ archive_reports (world (update env w)) -> r ∈ archive_reports w.
Proof.
  intros Hord [Hreg _] Ho Hin. apply archived_from in Hin; [|done].
  destruct Hin as [Hin|(v & m & Hm & _ & _ & -> & _)]; [done|].
  by apply Hreg in Hm.
Qed.

Lemma unregistered_run_cycles envs : forall w o r,
  Forall valid_order envs -> unregistered o w -> oid r = o ->
  r ∈ archive_reports (run_cycles envs w) -> r ∈ archive_reports w.
Proof.
  induction envs as [|env envs IH]; intros w o r Hords Hun Ho Hin; [done|].
  apply Forall_cons in Hords as [Hord Hords]. simpl in Hin.
  apply (unregistered_archive env w o r Hord Hun Ho).
  apply (IH _ o r Hords); [by apply unregistered_update | done | done].
Qed.

(** X13: the report of a registered monitor that a cycle finds not running
    is lost: the clean-up deletes the registry entry with no terminate
    call, and neither that cycle nor any later one appends the report to
    the in-memory archive list, whether the id is live or not. *)
Theorem swept_report_never_archived env envs w v m
    (Hords : Forall valid_order (env :: envs))
    (Hwf : registry_wf w) (Hinj : registry_inj w)
    (Hm : live_monitors w !! v = Some m)
    (Hdead : is_running env m = false) :
  (forall v', EvTerminate v' m ∉ events (update env w)) /\
  live_monitors (world (update env w)) !! v ≠ Some m /\
  (report m ∈ archive_reports (run_cycles (env :: envs) w) ->
   report m ∈ archive_reports w).
Proof.
  apply Forall_cons in Hords as [Hord Hords].
  assert (forall k m', live_monitors (world (update env w)) !! k = Some m' ->
                       oid (report m') ≠ oid (report m)) as Hnot.
  { intros k m' Hm'.
    destruct (update_started env w k m' Hord Hm') as [[Hold Hr]|(_ & _ & _ & Hn & _)].
    - intros Ho. assert (k = v) as -> by (apply (Hinj k v m' m); done).
      congruence.
    - apply Hwf in Hm. simpl in Hm. lia. }
  split; [|split].
  - intros v' He. apply update_terminate_event in He as [_ He]; [|done].
    by apply Hnot in He.
  - intros Hv. by apply Hnot in Hv.
  - intros Hin. simpl in Hin.
    assert (unregistered (oid (report m)) (world (update env w))) as Hun.
    { split; [done|]. apply Hwf in Hm. simpl in Hm.
      pose proof (update_next_oid_le env w). lia. }
    apply (unregistered_run_cycles envs _ _ _ Hords Hun eq_refl) in Hin.
    apply archived_from in Hin; [|done].
    destruct Hin as [Hin|(v2 & m2 & Hm2 & Hr2 & _ & Heq & _)]; [done|].
    assert (v = v2) as <- by (apply (Hinj v v2 m m2); congruence).
    congruence.
Qed.

Lemma swept_report_never_archived_witness :
  let m := mkMonitor Scenario.info_A (mkLiveReport 0 Scenario.info_A) in
  (forall v', EvTerminate v' m ∉ events Restart.cycle) /\
  live_monitors (world Restart.cycle) !! "A" ≠ Some m /\
  (report m ∈ archive_reports
     (run_cycles [Restart.env; Scenario.env_of [] []] (world Scenario.cycle1)) ->
   report m ∈ archive_reports (world Scenario.cycle1)).
Proof.
  intros m.
  apply (swept_report_never_archived Restart.env [Scenario.env_of [] []]
           (world Scenario.cycle1) "A" m).
  - repeat constructor; intros s; reflexivity.
  - apply scenario_cycle1_wf.
  - apply scenario_cycle1_inj.
  - vm_compute. reflexivity.
  - reflexivity.
Defined.

(** ** File names of different reports *)

Lemma string_length_app s1 s2 :
  String.length (s1 +:+ s2) = (String.length s1 + String.length s2)%nat.
Proof. induction s1 as [|c s1 IH]; simpl; [done | by rewrite IH]. Qed.

Lemma string_app_inj_length s1 : forall s2 t1 t2,
  String.length s1 = String.length s2 ->
  s1 +:+ t1 = s2 +:+ t2 -> s1 = s2 /\ t1 = t2.
Proof.
  induction s1 as [|c s1 IH]; intros [|c' s2] t1 t2 Hlen Heq; try done.
  simpl in Hlen, Heq. injection Heq as -> Heq. injection Hlen as Hlen.
  destruct (IH s2 t1 t2 Hlen Heq) as [-> ->]. done.
Qed.

Lemma length_digits width : forall n, String.length (digits width n) = width.
Proof.
  induction width as [|width IH]; intros n; cbn [digits]; [done|].
  rewrite string_length_app, IH. simpl. lia.
Qed.

#[local] Opaque digits.

Lemma isoformat_strip_inj offset ts1 ts2 dt1 dt2 :
  fromtimestamp_isoformat offset ts1 = Some dt1 ->
  fromtimestamp_isoformat offset ts2 = Some dt2 ->
  String.length (strip_colons dt1) = 17%nat /\
  (strip_colons dt1 = strip_colons dt2 -> dt1 = dt2).
Proof.
  intros H1 H2.
  pose proof (strip_colons_isoformat offset ts1 dt1 H1) as S1.
  pose proof (strip_colons_isoformat offset ts2 dt2 H2) as S2.
  cbv zeta in S1, S2. revert H1 H2 S1 S2. unfold fromtimestamp_isoformat. cbv zeta.
  destruct (civil_from_days ((ts1 + offset) / 86400)) as [[y1 m1] d1].
  destruct (civil_from_days ((ts2 + offset) / 86400)) as [[y2 m2] d2].
  destruct (_ && _)%bool; [|done]. destruct (_ && _)%bool; [|done].
  intros [= <-] [= <-] S1 S2. split.
  - rewrite S1, !string_length_app, !length_digits. reflexivity.
  - rewrite S1, S2. intros Heq.
    apply string_app_inj_length in Heq as [-> Heq]; [|by rewrite !length_digits].
    apply (string_app_inj_length "-" "-") in Heq as [_ Heq]; [|done].
    apply string_app_inj_length in Heq as [-> Heq]; [|by rewrite !length_digits].
    apply (string_app_inj_length "-" "-") in Heq as [_ Heq]; [|done].
    apply string_app_inj_length in Heq as [-> Heq]; [|by rewrite !length_digits].
    apply (string_app_inj_length "T" "T") in Heq as [_ Heq]; [|done].
    apply string_app_inj_length in Heq as [-> Heq]; [|by rewrite !length_digits].
    apply string_app_inj_length in Heq as [-> ->]; [|by rewrite !length_digits].
    done.
Qed.

#[local] Transparent digits.

(** X12: two reports get the same archive base name (the text built at
    line 97, before the extension and the directory) only if their start
    times print as the same local second and their ids are equal once the
    colons are removed; for ids without a colon, only if the ids are
    equal. *)
Theorem report_basename_injective offset r1 r2 dt1 dt2
    (H1 : fromtimestamp_isoformat offset (start_timestamp (info r1)) = Some dt1)
    (H2 : fromtimestamp_isoformat offset (start_timestamp (info r2)) = Some dt2)
    (Hname : report_basename dt1 r1 = report_basename dt2 r2) :
  dt1 = dt2 /\
  strip_colons (id (info r1)) = strip_colons (id (info r2)) /\
  (has_char ":" (id (info r1)) = false -> has_char ":" (id (info r2)) = false ->
   id (info r1) = id (info r2)).
Proof.
  rewrite !report_basename_eq in Hname.
  destruct (isoformat_strip_inj offset _ _ dt1 dt2 H1 H2) as [Hlen1 Hinj].
  destruct (isoformat_strip_inj offset _ _ dt2 dt1 H2 H1) as [Hlen2 _].
  apply string_app_inj_length in Hname as [Hdt Hid]; [|congruence].
  apply (String.app_inj "_") in Hid.
  split; [by apply Hinj|]. split; [done|].
  intros Hc1 Hc2. by rewrite <- (strip_colons_no_colon _ Hc1), <- (strip_colons_no_colon _ Hc2).
Qed.

Lemma report_basename_injective_witness :
  let r1 := mkLiveReport 0 (mkLiveInfo "a:b" 1600000000) in
  let r2 := mkLiveReport 1 (mkLiveInfo "ab" 1600000000) in
  strip_colons (id (info r1)) = strip_colons (id (info r2)).
Proof.
  intros r1 r2.
  destruct (report_basename_injective 0 r1 r2
              "2020-09-13T12:26:40" "2020-09-13T12:26:40") as (_ & H & _);
    [vm_compute; reflexivity .. | exact H].
Defined.

(** ** How often a cycle calls its collaborators *)

Lemma fetched_ids_app evs1 evs2 :
  fetched_ids (evs1 ++ evs2) = fetched_ids evs1 ++ fetched_ids evs2.
Proof. apply omap_app. Qed.

Lemma started_ids_app evs1 evs2 :
  started_ids (evs1 ++ evs2) = started_ids evs1 ++ started_ids evs2.
Proof. apply omap_app. Qed.

Lemma terminated_ids_app evs1 evs2 :
  terminated_ids (evs1 ++ evs2) = terminated_ids evs1 ++ terminated_ids evs2.
Proof. apply omap_app. Qed.

Lemma refresh_events_ids env w :
  fetched_ids (refresh_events env w) = [] /\
  started_ids (refresh_events env w) = [] /\
  terminated_ids (refresh_events env w) = [].
Proof.
  unfold refresh_events. destruct (bool_decide _); [|done].
  induction ((map_to_list (live_monitors w)).*2) as [|m l IH]; [done|].
  destruct IH as (? & ? & ?). csimpl. done.
Qed.

Lemma start_loop_ids env l : forall w,
  res (for_each l (start_live env) w) = Ok tt ->
  fetched_ids (events (for_each l (start_live env) w)) = l /\
  started_ids (events (for_each l (start_live env) w)) = l /\
  terminated_ids (events (for_each l (start_live env) w)) = [].
Proof.
  induction l as [|v l IH]; intros w Hok; [done|].
  rewrite for_each_cons in Hok |- *.
  destruct (get_live_info env v) as [i|] eqn:Hi.
  - revert Hok. erewrite bind_run_ok by (by rewrite (start_live_ok _ _ _ _ Hi)).
    rewrite (start_live_ok _ _ _ _ Hi). cbn [world events res]. intros Hok.
    destruct (IH _ Hok) as (Hf & Hs & Ht).
    rewrite fetched_ids_app, started_ids_app, terminated_ids_app, Hf, Hs, Ht. done.
  - revert Hok. rewrite (bind_run_raise _ _ _ (FetchError v))
      by (by rewrite (start_live_raise _ _ _ Hi)). done.
Qed.

Lemma archive_events_ids env r dt :
  fetched_ids (archive_events env r dt) = [] /\
  started_ids (archive_events env r dt) = [] /\
  terminated_ids (archive_events env r dt) = [].
Proof. unfold archive_events. by destruct (dump_chat (options env)). Qed.

Lemma stop_loop_ids env l : forall w,
  res (for_each l (stop_live env) w) = Ok tt ->
  fetched_ids (events (for_each l (stop_live env) w)) = [] /\
  started_ids (events (for_each l (stop_live env) w)) = [] /\
  terminated_ids (events (for_each l (stop_live env) w)) = l.
Proof.
  induction l as [|v l IH]; intros w Hok; [done|].
  rewrite for_each_cons in Hok |- *.
  apply bind_ok_inv in Hok as ([] & H1 & H2).
  rewrite (bind_run_ok _ _ _ _ H1). cbn [world events res].
  destruct (IH _ H2) as (Hf & Hs & Ht).
  rewrite fetched_ids_app, started_ids_app, terminated_ids_app, Hf, Hs, Ht.
  destruct (live_monitors w !! v) as [m|] eqn:Hm.
  - destruct (0 <? report_len env (oid (report m)))%nat eqn:Hlen.
    + apply Nat.ltb_lt in Hlen.
      destruct (stop_live_ok_inv env v m w Hm Hlen H1) as (dt & _ & ->). cbn [events].
      destruct (archive_events_ids env (report m) dt) as (Ef & Es & Et).
      change (EvTerminate v m :: archive_events env (report m) dt)
        with ([EvTerminate v m] ++ archive_events env (report m) dt).
      rewrite fetched_ids_app, started_ids_app, terminated_ids_app, Ef, Es, Et. done.
    + apply Nat.ltb_ge in Hlen. rewrite (stop_live_empty env v m w Hm) by lia. done.
  - by rewrite (stop_live_missing env v w Hm) in H1.
Qed.

(** X14: in a cycle that ends normally the metadata is fetched once for
    each new id and for no other id, a monitor is started once for each
    new id, and terminate is called once for each tracked id that is not
    live and for no other id, in the order the two loops visit the sets. *)
Theorem calls_once_per_id env w
    (Hord : valid_order env) (Hok : res (update env w) = Ok tt) :
  let new := set_order env (new_lives (live_set env) (tracked env w)) in
  let stopped := set_order env (stopped_lives (live_set env) (tracked env w)) in
  fetched_ids (events (update env w)) = new /\
  started_ids (events (update env w)) = new /\
  terminated_ids (events (update env w)) = stopped /\
  NoDup new /\ NoDup stopped /\
  (forall v, v ∈ new <-> v ∈ live_set env /\ v ∉ tracked env w) /\
  (forall v, v ∈ stopped <-> v ∈ tracked env w /\ v ∉ live_set env).
Proof.
  cbv zeta.
  pose proof (update_ok_inv env w Hok) as (Hstart & Hstop & _).
  destruct (refresh_events_ids env w) as (Rf & Rs & Rt).
  destruct (start_loop_ids env _ (swept env w) Hstart) as (Sf & Ss & St).
  destruct (stop_loop_ids env _ (world (start_phase env w)) Hstop) as (Tf & Ts & Tt).
  fold (start_phase env w) in Sf, Ss, St. fold (stop_phase env w) in Tf, Ts, Tt.
  rewrite update_events. unfold stop_events. rewrite Hstart. cbn [is_ok].
  rewrite !fetched_ids_app, !started_ids_app, !terminated_ids_app.
  rewrite Rf, Rs, Rt, Sf, Ss, St, Tf, Ts, Tt.
  split; [by rewrite app_nil_r|]. split; [by rewrite app_nil_r|]. split; [done|].
  split; [|split; [|split]].
  - rewrite (Hord _). apply NoDup_elements.
  - rewrite (Hord _). apply NoDup_elements.
  - intros v. rewrite elem_of_set_order by done. apply new_lives_spec.
  - intros v. rewrite elem_of_set_order by done. apply stopped_lives_spec.
Qed.

Lemma calls_once_per_id_witness :
  fetched_ids (events Scenario.cycle1) = ["A"; "B"] /\
  started_ids (events Scenario.cycle1) = ["A"; "B"] /\
  terminated_ids (events Scenario.cycle1) = [].
Proof.
  destruct (calls_once_per_id (Scenario.env_of ["A"; "B"] []) Scenario.empty_world)
    as (Hf & Hs & Ht & _).
  - intros s; reflexivity.
  - vm_compute. reflexivity.
  - split; [|split].
    + etransitivity; [exact Hf|]. vm_compute. reflexivity.
    + etransitivity; [exact Hs|]. vm_compute. reflexivity.
    + etransitivity; [exact Ht|]. vm_compute. reflexivity.
Defined.
